(** * HudlFileManager: a shallow embedding of the AutoPkg processor

    The processor of [HudlFileManager.py] takes a downloaded file, strips a
    query string from its name, unpacks it when it is an archive and reports
    the disk image it ends up with.  Its [main] is a single method that reads
    and writes the processor's environment dictionary, works on the file
    system through [pathlib] and calls three methods it inherits
    ([output], [get_archive_format], [_extract]).

    The development follows that shape:
    - [Str]      the [str] methods [main] uses ([split], [endswith], ...);
    - [Pathlib]  pure paths as [pathlib.PurePosixPath] builds them;
    - [OS]       a file system with the calls [main] makes on it;
    - the environment, the exceptions, a state-and-exception monad and
      [main] itself, phase by phase, with the line numbers of the source;
    - the properties of [main]. *)

From Stdlib Require Import Ascii.
From stdpp Require Import base option list strings gmap.

Set Default Proof Using "Type".

(** ** Python [str] methods *)

Module Str.

(** [s.split(sep)] for a one-character separator: always at least one
    field. *)
Fixpoint split (sep : ascii) (s : string) : list string :=
  match s with
  | EmptyString => [""]
  | String a s' =>
      if decide (a = sep) then "" :: split sep s'
      else match split sep s' with
           | [] => [String a ""]
           | w :: ws => String a w :: ws
           end
  end.

(** [s.endswith(sfx)]: some tail of [s] is [sfx]. *)
Fixpoint endswith (s sfx : string) : bool :=
  if decide (s = sfx) then true
  else match s with
       | EmptyString => false
       | String _ s' => endswith s' sfx
       end.

(** [s.startswith(pre)]. *)
Fixpoint startswith (s pre : string) : bool :=
  match pre, s with
  | EmptyString, _ => true
  | String a pre', String b s' => bool_decide (a = b) && startswith s' pre'
  | String _ _, EmptyString => false
  end.

(** [s.rfind(c)], with [None] for Python's [-1]. *)
Fixpoint rfind (c : ascii) (s : string) : option nat :=
  match s with
  | EmptyString => None
  | String a s' =>
      match rfind c s' with
      | Some i => Some (S i)
      | None => if decide (a = c) then Some 0 else None
      end
  end.

(** The slice [s[i:]]. *)
Fixpoint drop (i : nat) (s : string) : string :=
  match i, s with
  | 0, _ => s
  | S i', String _ s' => drop i' s'
  | S _, EmptyString => ""
  end.

(** [sep.join(l)]. *)
Fixpoint join (sep : string) (l : list string) : string :=
  match l with
  | [] => ""
  | [x] => x
  | x :: l' => x +:+ sep +:+ join sep l'
  end.

(** [c in s]. *)
Fixpoint contains (c : ascii) (s : string) : bool :=
  match s with
  | EmptyString => false
  | String a s' => bool_decide (a = c) || contains c s'
  end.

End Str.

(** ** Pure paths ([pathlib.PurePosixPath]) *)

Module Pathlib.

(** The root of a parsed path: none (a relative path), ["/"], or the
    ["//"] that POSIX keeps apart. *)
Inductive Root := NoRoot | Slash | DoubleSlash.

Global Instance Root_eq_dec : EqDecision Root.
Proof. solve_decision. Defined.

Definition root_str (r : Root) : string :=
  match r with NoRoot => "" | Slash => "/" | DoubleSlash => "//" end.

(** A parsed path: its root and the components after it.  Parsing drops
    empty components and ["."] components. *)
Record Path := mkPath { root : Root; tail : list string }.

Global Instance Path_eq_dec : EqDecision Path.
Proof. solve_decision. Defined.

(** [posixpath.splitroot]. *)
Definition splitroot (p : string) : Root * string :=
  match p with
  | String "/" (String "/" (String "/" _ as r)) => (Slash, String "/" r)
  | String "/" (String "/" r) => (DoubleSlash, r)
  | String "/" r => (Slash, r)
  | _ => (NoRoot, p)
  end.

(** [Path(s)]. *)
Definition parse (s : string) : Path :=
  let '(r, rel) := splitroot s in
  mkPath r (filter (λ x, x ≠ "" ∧ x ≠ ".") (Str.split "/" rel)).

(** [str(p)]. *)
Definition str (p : Path) : string :=
  match root p, tail p with
  | NoRoot, [] => "."
  | r, t => root_str r +:+ Str.join "/" t
  end.

Definition is_absolute (p : Path) : bool :=
  bool_decide (root p ≠ NoRoot).

(** [p / q]: an absolute right operand replaces the left one. *)
Definition join (p q : Path) : Path :=
  if is_absolute q then q else mkPath (root p) (tail p ++ tail q).

(** [p.joinpath(a1, a2, ...)]. *)
Definition joinpath (p : Path) (args : list Path) : Path :=
  foldl join p args.

(** [p.name]: the last component, [""] when there is none. *)
Definition name (p : Path) : string := default "" (last (tail p)).

(** [p.parent]: the path without its last component; a path without
    components is its own parent. *)
Definition parent (p : Path) : Path :=
  mkPath (root p) (removelast (tail p)).

(** [p.suffix]: the part of the name from its last dot on, unless that dot
    is the first or the last character of the name. *)
Definition suffix (p : Path) : string :=
  let name := name p in
  match Str.rfind "." name with
  | Some i =>
      if bool_decide (0 < i) && bool_decide (i < String.length name - 1)
      then Str.drop i name else ""
  | None => ""
  end.

(** The child [p / n] as [glob] builds it from a directory entry: the
    entry's name is appended as it is, without being parsed. *)
Definition child (p : Path) (n : string) : Path :=
  mkPath (root p) (tail p ++ [n]).

End Pathlib.

Import Pathlib.

(** ** The file system

    What [main] asks of the operating system, on a file system kept as the
    list of its entries.  An entry is keyed by its components from the root;
    the order of the list is the order in which a directory is listed.  The
    root directory is always there.

    Limits of the model, which the theorems below inherit: a path is resolved
    by its text (["."] is gone after parsing, [".."] is a name like any
    other); a symbolic link is a leaf that records what it resolves to, so
    nothing is found through a link; the only deletions that the system
    refuses on its own account are those listed in [unlink_errors]. *)

Module OS.

Inductive errno :=
  ENOENT | ENOTDIR | EISDIR | EEXIST | ENOTEMPTY | EINVAL | EBUSY | EACCES | EPERM.

Global Instance errno_eq_dec : EqDecision errno.
Proof. solve_decision. Defined.

(** [os.strerror]. *)
Definition strerror (e : errno) : string :=
  match e with
  | ENOENT => "No such file or directory"
  | ENOTDIR => "Not a directory"
  | EISDIR => "Is a directory"
  | EEXIST => "File exists"
  | ENOTEMPTY => "Directory not empty"
  | EINVAL => "Invalid argument"
  | EBUSY => "Device or resource busy"
  | EACCES => "Permission denied"
  | EPERM => "Operation not permitted"
  end.

Inductive ftype := Regular | Directory.

Global Instance ftype_eq_dec : EqDecision ftype.
Proof. solve_decision. Defined.

Inductive node :=
| Plain (t : ftype)
| Symlink (target : option ftype).   (* [None]: a dangling link *)

Global Instance node_eq_dec : EqDecision node.
Proof. solve_decision. Defined.

Record FS := mkFS {
  cwd : list string;
  entries : list (list string * node);
  unlink_errors : list (list string * errno)
}.

(** The outcome of a system call. *)
Inductive res (A : Type) :=
| Success (a : A)
| Failure (e : errno).
Global Arguments Success {A} a.
Global Arguments Failure {A} e.

Fixpoint assoc {V} (k : list string) (l : list (list string * V)) : option V :=
  match l with
  | [] => None
  | (k', v) :: l' => if decide (k' = k) then Some v else assoc k l'
  end.

Definition resolve (fs : FS) (p : Path) : list string :=
  match root p with
  | NoRoot => cwd fs ++ tail p
  | _ => tail p
  end.

(** [os.lstat]: the entry itself. *)
Definition lstat (fs : FS) (k : list string) : option node :=
  if decide (k = []) then Some (Plain Directory) else assoc k (entries fs).

(** [os.stat]: the entry after following a link. *)
Definition stat (fs : FS) (k : list string) : option ftype :=
  match lstat fs k with
  | Some (Plain t) => Some t
  | Some (Symlink t) => t
  | None => None
  end.

(** [Path.exists], [Path.is_dir], [Path.is_symlink]. *)
Definition exists_ (fs : FS) (p : Path) : bool :=
  bool_decide (is_Some (stat fs (resolve fs p))).

Definition is_dir (fs : FS) (p : Path) : bool :=
  bool_decide (stat fs (resolve fs p) = Some Directory).

Definition is_symlink (fs : FS) (p : Path) : bool :=
  match lstat fs (resolve fs p) with
  | Some (Symlink _) => true
  | _ => false
  end.

(** The name under which [k'] is listed in directory [k], if it is. *)
Definition child_name (k k' : list string) : option string :=
  match last k' with
  | Some n => if decide (k' = k ++ [n]) then Some n else None
  | None => None
  end.

(** [os.scandir]: the names in a directory, in listing order. *)
Definition listdir (fs : FS) (k : list string) : list string :=
  omap (λ e, child_name k e.1) (entries fs).

(** [fnmatch] for the two patterns [main] uses: a pattern that is one
    leading star followed by literal text.  Case matters, and a leading dot
    in the name is not special (in [pathlib], unlike the [glob] module). *)
Definition fnmatch (pattern n : string) : bool :=
  match pattern with
  | String "*" lit => Str.endswith n lit
  | _ => bool_decide (pattern = n)
  end.

(** [Path.glob(pattern)] for a pattern without a directory part: the
    directory is read once, then the matching children are yielded. *)
Definition glob (fs : FS) (p : Path) (pattern : string) : list Path :=
  if is_dir fs p
  then child p <$> filter (λ n, fnmatch pattern n) (listdir fs (resolve fs p))
  else [].

Definition remove_entry (k : list string) (fs : FS) : FS :=
  mkFS (cwd fs) (filter (λ e, e.1 ≠ k) (entries fs)) (unlink_errors fs).

(** [os.unlink]. *)
Definition unlink (fs : FS) (p : Path) : res FS :=
  let k := resolve fs p in
  match lstat fs k with
  | None => Failure ENOENT
  | Some (Plain Directory) => Failure EISDIR
  | Some _ =>
      match assoc k (unlink_errors fs) with
      | Some e => Failure e
      | None => Success (remove_entry k fs)
      end
  end.

(** The walk to the last component of [pre ++ rest]: every component
    before it has to be a directory. *)
Fixpoint walk (fs : FS) (pre rest : list string) : option errno :=
  match rest with
  | [] => None
  | n :: rest' =>
      match rest' with
      | [] => None
      | _ :: _ =>
          match stat fs (pre ++ [n]) with
          | None => Some ENOENT
          | Some Regular => Some ENOTDIR
          | Some Directory => walk fs (pre ++ [n]) rest'
          end
      end
  end.

(** [os.mkdir]. *)
Definition os_mkdir (fs : FS) (k : list string) : res FS :=
  match walk fs [] k with
  | Some e => Failure e
  | None =>
      match lstat fs k with
      | Some _ => Failure EEXIST
      | None =>
          Success (mkFS (cwd fs) (entries fs ++ [(k, Plain Directory)])
                        (unlink_errors fs))
      end
  end.

(** [Path.mkdir(parents=False, exist_ok=True)]. *)
Definition mkdir_exist_ok (fs : FS) (p : Path) : res FS :=
  match os_mkdir fs (resolve fs p) with
  | Success fs' => Success fs'
  | Failure ENOENT => Failure ENOENT
  | Failure e => if is_dir fs p then Success fs else Failure e
  end.

(** [Path.mkdir(parents=True, exist_ok=True)], by recursion over the
    components of the path, last one first. *)
Fixpoint mkdir_parents (fs : FS) (r : Root) (rev_tail : list string) : res FS :=
  let p := mkPath r (reverse rev_tail) in
  match os_mkdir fs (resolve fs p) with
  | Success fs' => Success fs'
  | Failure ENOENT =>
      match rev_tail with
      | [] => Failure ENOENT          (* [self.parent == self] *)
      | _ :: rev_parent =>
          match mkdir_parents fs r rev_parent with
          | Success fs' => mkdir_exist_ok fs' p
          | Failure e => Failure e
          end
      end
  | Failure e => if is_dir fs p then Success fs else Failure e
  end.

Definition mkdir (fs : FS) (p : Path) : res FS :=
  mkdir_parents fs (root p) (reverse (tail p)).

(** Moving [ks] and all that lies below it to [kd]. *)
Definition rekey (ks kd k : list string) : list string :=
  if decide (ks `prefix_of` k) then kd ++ drop (length ks) k else k.

Definition move (ks kd : list string) (fs : FS) : FS :=
  mkFS (cwd fs)
       (prod_map (rekey ks kd) id <$> filter (λ e, e.1 ≠ kd) (entries fs))
       (unlink_errors fs).

(** [os.rename]. *)
Definition rename (fs : FS) (src dst : Path) : res FS :=
  let ks := resolve fs src in
  let kd := resolve fs dst in
  match walk fs [] ks with
  | Some e => Failure e
  | None =>
  match lstat fs ks with
  | None => Failure ENOENT
  | Some ns =>
  match walk fs [] kd with
  | Some e => Failure e
  | None =>
      if decide (ks = kd) then Success fs
      else if decide (ks = []) then Failure EBUSY
      else if decide (ks `prefix_of` kd) then Failure EINVAL
      else match lstat fs kd with
           | None => Success (move ks kd fs)
           | Some (Plain Directory) =>
               if decide (listdir fs kd = []) then
                 if decide (ns = Plain Directory)
                 then Success (move ks kd fs) else Failure EISDIR
               else Failure ENOTEMPTY
           | Some _ =>
               if decide (ns = Plain Directory)
               then Failure ENOTDIR else Success (move ks kd fs)
           end
  end end end.

End OS.

Import OS.

(** ** The processor: environment, exceptions, state *)

(** The values the environment dictionary holds. *)
Inductive pyval :=
| VNone
| VBool (b : bool)
| VStr (s : string).

Global Instance pyval_eq_dec : EqDecision pyval.
Proof. solve_decision. Defined.

(** Truth value of an object, as [if x] and [not x] take it. *)
Definition truthy (v : pyval) : bool :=
  match v with
  | VNone => false
  | VBool b => b
  | VStr s => negb (bool_decide (s = ""))
  end.

(** [str(v)], as an f-string formats a value. *)
Definition py_str (v : pyval) : string :=
  match v with
  | VNone => "None"
  | VBool true => "True"
  | VBool false => "False"
  | VStr s => s
  end.

(** [d.get(k, default)]. *)
Definition env_get (env : gmap string pyval) (k : string) (dflt : pyval) : pyval :=
  default dflt (env !! k).

(** Exceptions other than [ProcessorError]. *)
Inductive pyexn :=
| OSError (e : errno)
| NameError (name : string)
| KeyError (key : string)
| TypeError
| ReError (pattern : string).

(** A [ProcessorError], by the place that raises it: the six [raise]
    statements of [main] with the values their messages are formatted from,
    the wrapping handler at the end of [main], and the errors that the
    inherited [_extract] raises itself. *)
Inductive ProcessorError :=
| ExpectedPathname
| PathnameMissing (pathname : Path)
| CantRemove (file_path : Path) (strerror : string)
| CantGuessFormat (name : string)
| InvalidFormat (file_fmt : string)
| NoDmgLocated
| FromException (ex : pyexn)
| FromExtract (msg : string).

Inductive exn :=
| Processor (e : ProcessorError)
| Other (ex : pyexn).

(** The archive formats, [EXTNS] of the source (suffixes without their dot). *)
Definition EXTNS : list (string * list string) :=
  [ ("zip", ["zip"]);
    ("tar_gzip", ["tar.gz"; "tgz"]);
    ("tar_bzip2", ["tar.bz2"; "tbz"]);
    ("tar", ["tar"]);
    ("gzip", ["gzip"]) ].

(** The text of a [ProcessorError] raised by [main]; the text of a wrapped
    exception is that exception's own and is not modelled. *)
Definition message (e : ProcessorError) : option string :=
  match e with
  | ExpectedPathname =>
      Some "Expected a 'pathname' input variable but none is set!"
  | PathnameMissing pathname =>
      Some ("File from previous processor (pathname: " +:+ str pathname
            +:+ ") does not exist!")
  | CantRemove file_path strerror =>
      Some ("Can't remove " +:+ str file_path +:+ ": " +:+ strerror)
  | CantGuessFormat name =>
      Some ("Can't guess archive format for filename '" +:+ name +:+ "'")
  | InvalidFormat file_fmt =>
      Some ("'" +:+ file_fmt +:+ "' is not valid for the 'archive_format' "
            +:+ "variable. Must be one of " +:+ Str.join ", " (EXTNS.*1) +:+ ".")
  | NoDmgLocated => Some "Unable to locate a DMG after processing!"
  | FromException _ => None
  | FromExtract msg => Some msg
  end.

(** What [main] does through the methods it inherits. *)
Inductive event :=
| Output (msg : string)                      (* [self.output(msg)] *)
| GetArchiveFormat (path : string)           (* [self.get_archive_format(path)] *)
| Extract (fmt src dst : string).            (* [self._extract(fmt, src, dst)] *)

Record State := mkState {
  env : gmap string pyval;
  fs : FS;
  trace : list event
}.

(** A run ends with a value or with an exception, and a state either way. *)
Inductive Result (A : Type) :=
| Ok (a : A) (st : State)
| Raise (e : exn) (st : State).
Global Arguments Ok {A} a st.
Global Arguments Raise {A} e st.

(** The state a run ends in. *)
Definition final_state {A} (r : Result A) : State :=
  match r with
  | Ok _ st => st
  | Raise _ st => st
  end.

Definition M (A : Type) : Type := State → Result A.

Definition ret {A} (a : A) : M A := λ st, Ok a st.

Definition bind {A B} (m : M A) (f : A → M B) : M B :=
  λ st, match m st with
        | Ok a st' => f a st'
        | Raise e st' => Raise e st'
        end.

Definition raise {A} (e : exn) : M A := λ st, Raise e st.

Declare Scope py_scope.
Delimit Scope py_scope with py.
Notation "'let*' x ':=' m 'in' k" := (bind m (λ x, k))
  (at level 10, x name, m at level 100, k at level 200) : py_scope.
Notation "'let*' ' pat ':=' m 'in' k" :=
  (bind m (λ x, match x with pat => k end))
  (at level 10, pat pattern, m at level 100, k at level 200) : py_scope.
Notation "m >> k" := (bind m (λ _, k))
  (at level 100, k at level 200, right associativity) : py_scope.
Open Scope py_scope.

Definition get_env : M (gmap string pyval) := λ st, Ok (env st) st.

Definition get_fs : M FS := λ st, Ok (fs st) st.

(** [self.env[k] = v]. *)
Definition set_env (k : string) (v : pyval) : M unit :=
  λ st, Ok () (mkState (<[k := v]> (env st)) (fs st) (trace st)).

(** [self.env[k]]. *)
Definition env_item (k : string) : M pyval :=
  let* env := get_env in
  match env !! k with
  | Some v => ret v
  | None => raise (Other (KeyError k))
  end.

Definition emit (ev : event) : M unit :=
  λ st, Ok () (mkState (env st) (fs st) (trace st ++ [ev])).

Definition output (msg : string) : M unit := emit (Output msg).

(** A system call that changes the file system; its failure is an
    [OSError]. *)
Definition syscall (f : FS → res FS) : M unit :=
  λ st, match f (fs st) with
        | Success fs' => Ok () (mkState (env st) fs' (trace st))
        | Failure e => Raise (Other (OSError e)) st
        end.

(** [pathlib.Path(v)]: only a string makes a path. *)
Definition Path_of (v : pyval) : M Path :=
  match v with
  | VStr s => ret (parse s)
  | _ => raise (Other TypeError)
  end.

(** [try: m except OSError as err: h err]. *)
Definition except_OSError {A} (m : M A) (h : errno → M A) : M A :=
  λ st, match m st with
        | Raise (Other (OSError err)) st' => h err st'
        | r => r
        end.

(** The handlers that close [main]:
    [except ProcessorError: raise] and
    [except Exception as ex: raise ProcessorError(ex)]. *)
Definition except_wrap {A} (m : M A) : M A :=
  λ st, match m st with
        | Raise (Other ex) st' => Raise (Processor (FromException ex)) st'
        | r => r
        end.

(** [for x in l: body x]. *)
Fixpoint for_each {A} (l : list A) (body : A → M unit) : M unit :=
  match l with
  | [] => ret ()
  | x :: l' => body x >> for_each l' body
  end.

(** ** Format detection

    [main] asks the inherited [get_archive_format] for the format.  That
    method is not part of the sources; it is modelled here from the spec,
    with the helpers it needs, over the table [EXTNS] of the source. *)

(** The recognized suffixes with their tag, in the order of [EXTNS], each
    with its leading dot. *)
Definition dotted_suffixes : list (string * string) :=
  flat_map (λ g, (λ extn, (g.1, "." +:+ extn)) <$> g.2) EXTNS.

Definition suffix_matches (filename : string) : list (string * string) :=
  filter (λ c, Str.endswith filename c.2) dotted_suffixes.

(** One step of the choice: a candidate replaces the best one so far only
    when its suffix is longer. *)
Definition longer (best : option (string * string)) (c : string * string)
    : option (string * string) :=
  match best with
  | Some b =>
      if bool_decide (String.length b.2 < String.length c.2)
      then Some c else Some b
  | None => Some c
  end.

(** The candidate with the longest suffix, the earlier one among equals. *)
Definition longest (cs : list (string * string)) : option (string * string) :=
  foldl longer None cs.

(** Modelled from the spec: [get_archive_format] is a method of the
    [Unarchiver] class that [HudlFileManager] extends, and that class is not
    part of the sources.  The spec (section 4.4) has the filename's suffix
    matched against the closed, ordered table of extension groups, the
    groups being those of [EXTNS] and the suffixes written with their dot,
    the longest matching suffix winning; no match gives [None]. *)
Definition get_archive_format (filename : string) : option string :=
  fst <$> longest (suffix_matches filename).

(** ** [HudlFileManager.main] *)

(** How a call of [_extract] ends: normally, with a [ProcessorError] of its
    own, or with another exception. *)
Inductive extract_outcome :=
| Extracted
| ExtractFailed (msg : string)
| ExtractRaised (ex : pyexn).

Section HudlFileManager.

(** [Unarchiver._extract(fmt, src, dst)]: the inherited extractor.  It
    reads the environment (the native-extractor switch) and works on the
    file system. *)
Variable _extract :
  gmap string pyval → string → string → string → FS → FS * extract_outcome.

(** [re.match(pattern, s) is not None]; [None] when the pattern does not
    compile ([re.error]). *)
Variable re_match : string → string → option bool.

Definition extract (fmt src dst : string) : M unit :=
  λ st,
    let '(fs', out) := _extract (env st) fmt src dst (fs st) in
    let st' := mkState (env st) fs' (trace st ++ [Extract fmt src dst]) in
    match out with
    | Extracted => Ok () st'
    | ExtractFailed msg => Raise (Processor (FromExtract msg)) st'
    | ExtractRaised ex => Raise (Other ex) st'
    end.

Definition detect (path : string) : M (option string) :=
  emit (GetArchiveFormat path) >> ret (get_archive_format path).

(** Lines 93-110: the source path and the destination directory. *)
Definition resolve_inputs : M (Path * Path) :=
  let* env := get_env in
  (* 93 *)
  let pathname := env_get env "archive_path" (env_get env "pathname" VNone) in
  (* 94 *)
  if negb (truthy pathname) then raise (Processor ExpectedPathname) else
  (* 100 *)
  let* pathname := Path_of pathname in
  (* 101 *)
  let* fs := get_fs in
  if negb (exists_ fs pathname) then raise (Processor (PathnameMissing pathname)) else
  (* 107-110: the default is evaluated before [get] is called *)
  let* cache := env_item "RECIPE_CACHE_DIR" in
  let* name := env_item "NAME" in
  let* cache := Path_of cache in
  let* name := Path_of name in
  let dflt := join cache name in
  let* destination_path :=
    match env !! "destination_path" with
    | Some v => Path_of v
    | None => ret dflt
    end in
  ret (pathname, destination_path).

(** Lines 115-123: the body of the purge loop.  The name [path] of line
    117 is bound nowhere, so evaluating the argument of [shutil.rmtree]
    raises [NameError] and [rmtree] is never entered; [NameError] is not an
    [OSError] and passes the handler. *)
Definition purge_entry (file_path : Path) : M unit :=
  except_OSError
    (let* fs := get_fs in
     if is_dir fs file_path && negb (is_symlink fs file_path)
     then raise (Other (NameError "path"))
     else syscall (λ fs, unlink fs file_path))
    (λ err, raise (Processor (CantRemove file_path (strerror err)))).

(** Lines 113-123. *)
Definition purge_destination (destination_path : Path) : M unit :=
  let* env := get_env in
  if truthy (env_get env "purge_destination" VNone) then
    let* fs := get_fs in
    for_each (glob fs destination_path "*") purge_entry
  else ret ().

(** Lines 126-130: the new name and the renaming. *)
Definition new_pathname_of (pathname : Path) : Path :=
  joinpath pathname
    [parent pathname; parse (default "" (head (Str.split "?" (name pathname))))].

Definition canonicalize (pathname : Path) : M Path :=
  let new_pathname := new_pathname_of pathname in
  syscall (λ fs, rename fs pathname new_pathname) >>
  ret new_pathname.

(** Lines 136-158: guessing the format and unpacking. *)
Definition unarchive (new_pathname destination_path : Path) : M unit :=
  (* 136 *)
  let* file_fmt := detect (str new_pathname) in
  match file_fmt with
  | None | Some "" =>
      (* 137-141 *)
      raise (Processor (CantGuessFormat (name new_pathname)))
  | Some file_fmt =>
      (* 142-145 *)
      output ("Guessed archive format '" +:+ file_fmt +:+ "' from filename '"
              +:+ name new_pathname +:+ "'") >>
      (* 146-151 *)
      if negb (bool_decide (file_fmt ∈ EXTNS.*1))
      then raise (Processor (InvalidFormat file_fmt)) else
      (* 153-158 *)
      extract file_fmt (str new_pathname) (str destination_path) >>
      output ("Unarchived '" +:+ str new_pathname +:+ "' to '"
              +:+ str destination_path +:+ "'")
  end.

(** Lines 162-165: the first listed child that the pattern matches. *)
Fixpoint locate_loop (file_regex : string) (files : list Path) : M unit :=
  match files with
  | [] => ret ()
  | file_path :: files' =>
      match re_match file_regex (name file_path) with
      | None => raise (Other (ReError file_regex))
      | Some true => set_env "dmg_path" (VStr (str file_path))
      | Some false => locate_loop file_regex files'
      end
  end.

(** Lines 160-165. *)
Definition locate_dmg (destination_path : Path) : M unit :=
  let* recipe_name := env_item "NAME" in
  let file_regex := py_str recipe_name +:+ ".*\.dmg" in
  let* fs := get_fs in
  locate_loop file_regex (glob fs destination_path "*.dmg").

(** Lines 167-175. *)
Definition check_found (pathname : Path) : M unit :=
  let* env := get_env in
  if negb (truthy (env_get env "dmg_path" VNone))
  then raise (Processor NoDmgLocated)
  else
    let* dmg_path := env_item "dmg_path" in
    output ("Found DMG " +:+ py_str dmg_path +:+ " in file " +:+ str pathname).

(** Lines 132-175: what follows the renaming inside the [try]. *)
Definition finish (pathname new_pathname destination_path : Path) : M unit :=
  (if bool_decide (suffix new_pathname = ".dmg")
   then set_env "dmg_path" (VStr (str new_pathname))
   else unarchive new_pathname destination_path >>
        locate_dmg destination_path) >>
  check_found pathname.

(** Lines 125-179. *)
Definition process (pathname destination_path : Path) : M unit :=
  except_wrap
    (let* new_pathname := canonicalize pathname in
     finish pathname new_pathname destination_path).

(** Lines 93-123: everything before the [try]. *)
Definition prepare : M (Path * Path) :=
  let* '(pathname, destination_path) := resolve_inputs in
  (* 112 *)
  syscall (λ fs, mkdir fs destination_path) >>
  purge_destination destination_path >>
  ret (pathname, destination_path).

(** Lines 89-179. *)
Definition main : M unit :=
  let* '(pathname, destination_path) := prepare in
  process pathname destination_path.

End HudlFileManager.

(** ** Collaborators for the examples

    The theorems hold for every extractor and every matcher.  The examples
    run [main] with an extractor that drops given files into the destination
    and with a matcher for a fragment of Python's regular expressions. *)

Module Sample.

(** An extractor that creates regular files with the given names in [dst]
    and never fails. *)
Definition unpack (names : list string)
    (env : gmap string pyval) (fmt src dst : string) (fs : FS)
    : FS * extract_outcome :=
  (mkFS (cwd fs)
        (entries fs ++
           ((λ n, (resolve fs (parse dst) ++ [n], Plain Regular)) <$> names))
        (unlink_errors fs),
   Extracted).

(** An extractor that fails with a [ProcessorError] of its own. *)
Definition broken (msg : string)
    (env : gmap string pyval) (fmt src dst : string) (fs : FS)
    : FS * extract_outcome :=
  (fs, ExtractFailed msg).

(** A fragment of [re]: literal characters, escaped characters, the dot
    (any character but a newline), each possibly under a star.  Outside
    the fragment [compile] answers [None], which is no statement about
    Python. *)
Inductive atom := Lit (c : ascii) | AnyChar.
Inductive item := One (a : atom) | Star (a : atom).

Definition is_meta (c : ascii) : bool :=
  Str.contains c "[](){}|+?^$*\.".

Definition is_word (c : ascii) : bool :=
  let n := nat_of_ascii c in
  bool_decide (48 ≤ n ≤ 57) || bool_decide (65 ≤ n ≤ 90)
  || bool_decide (97 ≤ n ≤ 122).

Definition starred (a : atom) (rest : string) : item * string :=
  match rest with
  | String "*" rest' => (Star a, rest')
  | _ => (One a, rest)
  end.

Fixpoint compile (fuel : nat) (pattern : string) : option (list item) :=
  match fuel with
  | 0 => None
  | S fuel' =>
      match pattern with
      | EmptyString => Some []
      | String "\" (String c rest) =>
          if is_word c then None else
          let '(it, rest') := starred (Lit c) rest in
          cons it <$> compile fuel' rest'
      | String "." rest =>
          let '(it, rest') := starred AnyChar rest in
          cons it <$> compile fuel' rest'
      | String c rest =>
          if is_meta c then None else
          let '(it, rest') := starred (Lit c) rest in
          cons it <$> compile fuel' rest'
      end
  end.

Definition atom_matches (a : atom) (c : ascii) : bool :=
  match a with
  | Lit c' => bool_decide (c = c')
  | AnyChar => negb (bool_decide (c = "010"%char))
  end.

(** Does a prefix of the string match all the items? *)
Fixpoint matches (items : list item) : string → bool :=
  match items with
  | [] => λ _, true
  | One a :: items' =>
      λ s, match s with
           | String c s' => atom_matches a c && matches items' s'
           | EmptyString => false
           end
  | Star a :: items' =>
      fix star (s : string) : bool :=
        matches items' s ||
        match s with
        | String c s' => atom_matches a c && star s'
        | EmptyString => false
        end
  end.

Definition re_match (pattern s : string) : option bool :=
  (λ items, matches items s) <$> compile (S (String.length pattern)) pattern.

End Sample.

(** ** Runs used as examples *)

Module Scenario.

Definition downloads (file : string) : FS :=
  mkFS ["home"; "user"]
       [ (["dl"], Plain Directory);
         (["dl"; file], Plain Regular);
         (["cache"], Plain Directory) ]
       [].

Definition start (pathname recipe_name : string) : State :=
  mkState (list_to_map [ ("pathname", VStr pathname);
                         ("RECIPE_CACHE_DIR", VStr "/cache");
                         ("NAME", VStr recipe_name) ])
          (downloads (default "" (last (Str.split "/" pathname))))
          [].

(** A signed download of a disk image. *)
Definition dmg_download : State :=
  start "/dl/app-installer.dmg?sig=abc123" "App".

(** An archive with a token in its name. *)
Definition tgz_download : State :=
  start "/dl/bundle.tar.gz?token=xyz" "MyRecipeName".

Definition zip_download : State := start "/dl/bundle.zip" "App".

(** A download in a format that is not recognized. *)
Definition pkg_download : State := start "/dl/app.pkg" "App".

(** The same archive when the environment still holds the [dmg_path] of
    an earlier processor. *)
Definition stale_dmg_path : State :=
  mkState (<["dmg_path" := VStr "/old/stale.dmg"]> (env zip_download))
          (fs zip_download) [].

(** A disk image downloaded while the destination already holds an image
    that carries the recipe name. *)
Definition dmg_beside_image : State :=
  mkState (env dmg_download)
          (mkFS ["home"; "user"]
                [ (["dl"], Plain Directory);
                  (["dl"; "app-installer.dmg?sig=abc123"], Plain Regular);
                  (["cache"], Plain Directory);
                  (["cache"; "App"], Plain Directory);
                  (["cache"; "App"; "App-1.0.dmg"], Plain Regular) ]
                [])
          [].

(** What the archive of the examples holds. *)
Definition images : list string :=
  ["README"; "Other.dmg"; "MyRecipeName-1.2.dmg"; "MyRecipeName-1.3.dmg"].

(** A purge of a destination that holds a hidden file next to a plain
    one. *)
Definition hidden_in_destination : State :=
  mkState (<["purge_destination" := VBool true]> (env dmg_download))
          (mkFS ["home"; "user"]
                [ (["dl"], Plain Directory);
                  (["dl"; "app-installer.dmg?sig=abc123"], Plain Regular);
                  (["cache"], Plain Directory);
                  (["cache"; "App"], Plain Directory);
                  (["cache"; "App"; ".hidden"], Plain Regular);
                  (["cache"; "App"; "old.txt"], Plain Regular) ]
                [])
          [].

(** A purge of a destination that holds a regular file and a
    subdirectory. *)
Definition file_and_subdirectory : State :=
  mkState (<["purge_destination" := VBool true]> (env zip_download))
          (mkFS ["home"; "user"]
                [ (["dl"], Plain Directory);
                  (["dl"; "bundle.zip"], Plain Regular);
                  (["cache"], Plain Directory);
                  (["cache"; "App"], Plain Directory);
                  (["cache"; "App"; "old.txt"], Plain Regular);
                  (["cache"; "App"; "sub"], Plain Directory);
                  (["cache"; "App"; "sub"; "inner.txt"], Plain Regular) ]
                [])
          [].

(** A purge that meets a file the system refuses to delete. *)
Definition locked_file : State :=
  mkState (<["purge_destination" := VBool true]> (env zip_download))
          (mkFS ["home"; "user"]
                [ (["dl"], Plain Directory);
                  (["dl"; "bundle.zip"], Plain Regular);
                  (["cache"], Plain Directory);
                  (["cache"; "App"], Plain Directory);
                  (["cache"; "App"; "old.txt"], Plain Regular) ]
                [ (["cache"; "App"; "old.txt"], EACCES) ])
          [].

(** Downloads named by a path relative to the working directory. *)
Definition relative (pathname file : string) : State :=
  mkState (list_to_map [ ("pathname", VStr pathname);
                         ("RECIPE_CACHE_DIR", VStr "/cache");
                         ("NAME", VStr "App") ])
          (mkFS ["home"; "user"]
                [ (["home"], Plain Directory);
                  (["home"; "user"], Plain Directory);
                  (["home"; "user"; "downloads"], Plain Directory);
                  (["home"; "user"; "downloads"; file], Plain Regular);
                  (["cache"], Plain Directory) ]
                [])
          [].

Definition relative_download : State :=
  relative "downloads/app.zip" "app.zip".

Definition relative_signed_download : State :=
  relative "downloads/app.dmg?sig=abc" "app.dmg?sig=abc".

(** A recipe that names no source at all. *)
Definition no_pathname : State :=
  mkState (list_to_map [ ("RECIPE_CACHE_DIR", VStr "/cache");
                         ("NAME", VStr "App") ])
          (downloads "app.zip") [].

(** A source path left by the downloader, whose file is gone. *)
Definition missing_download : State :=
  mkState (env zip_download) (downloads "other.zip") [].

End Scenario.

(** ** Invariants of a run

    [inv I E m]: started in a state where [I] holds, [m] ends in a state
    where [I] holds, and an exception it raises satisfies [E]. *)

Definition inv {A} (I : State → Prop) (E : exn → Prop) (m : M A) : Prop :=
  ∀ st, I st →
    match m st with
    | Ok _ st' => I st'
    | Raise e st' => I st' ∧ E e
    end.

(** Invariants that do not look at the file system, or at the trace. *)
Class FsStable (I : State → Prop) : Prop :=
  fs_stable : ∀ st fs', I st → I (mkState (env st) fs' (trace st)).

Class TraceStable (I : State → Prop) : Prop :=
  trace_stable : ∀ st t', I st → I (mkState (env st) (fs st) t').

(** The invariants used below. *)
Definition same_env_trace (st0 : State) : State → Prop :=
  λ st, env st = env st0 ∧ trace st = trace st0.

Definition same_env (st0 : State) : State → Prop :=
  λ st, env st = env st0.

(** The environment holds a true value under [dmg_path]. *)
Definition dmg_path_set : State → Prop :=
  λ st, truthy (env_get (env st) "dmg_path" VNone) = true.

(** ** The rest of the module *)

(** [_default_use_python_native_extractor], lines 39-42, with the answer of
    [autopkglib.is_mac] as its argument: the default of the
    [USE_PYTHON_NATIVE_EXTRACTOR] input variable. *)
Definition _default_use_python_native_extractor (is_mac : bool) : bool :=
  if is_mac then false else true.

(** The environment keeps what it holds under [k]. *)
Definition keeps_key (k : string) (v : option pyval) : State → Prop :=
  λ st, env st !! k = v.

(** The trace is the given one. *)
Definition same_trace (t : list event) : State → Prop :=
  λ st, trace st = t.

(** A path that can be reached: it is there, and every component before
    its last one is a directory. *)
Definition reachable (fs : FS) (p : Path) : Prop :=
  walk fs [] (resolve fs p) = None ∧ is_Some (lstat fs (resolve fs p)).

(** How the handlers that close [main] turn an exception. *)
Definition wrapped (e : exn) : exn :=
  match e with
  | Other ex => Processor (FromException ex)
  | Processor pe => Processor pe
  end.


(** The invariant that says nothing. *)
Definition any_state : State → Prop := λ _, True.

(** ** More runs used as examples *)

Module Cases.

(** A recipe whose [archive_path] is left empty next to a good
    [pathname]. *)
Definition empty_archive_path : State :=
  mkState (<["archive_path" := VStr ""]> (env Scenario.zip_download))
          (fs Scenario.zip_download) [].

(** A recipe that names its destination and lacks the recipe name. *)
Definition no_recipe_name : State :=
  mkState (list_to_map [ ("pathname", VStr "/dl/bundle.zip");
                         ("destination_path", VStr "/cache/out");
                         ("RECIPE_CACHE_DIR", VStr "/cache") ])
          (fs Scenario.zip_download) [].

(** A recipe that names its destination and lacks the cache directory. *)
Definition no_cache_dir : State :=
  mkState (list_to_map [ ("pathname", VStr "/dl/bundle.zip");
                         ("destination_path", VStr "/cache/out");
                         ("NAME", VStr "App") ])
          (fs Scenario.zip_download) [].

(** A destination that holds a file, a dangling link and a link to a
    directory. *)
Definition links_in_destination : State :=
  mkState (<["purge_destination" := VBool true]> (env Scenario.zip_download))
          (mkFS ["home"; "user"]
                [ (["dl"], Plain Directory);
                  (["dl"; "bundle.zip"], Plain Regular);
                  (["cache"], Plain Directory);
                  (["cache"; "App"], Plain Directory);
                  (["cache"; "App"; "old.txt"], Plain Regular);
                  (["cache"; "App"; "gone"], Symlink None);
                  (["cache"; "App"; "latest"], Symlink (Some Directory)) ]
                [])
          [].

(** A recipe whose destination is taken by a regular file. *)
Definition destination_is_a_file : State :=
  mkState (env Scenario.zip_download)
          (mkFS ["home"; "user"]
                [ (["dl"], Plain Directory);
                  (["dl"; "bundle.zip"], Plain Regular);
                  (["cache"], Plain Directory);
                  (["cache"; "App"], Plain Regular) ]
                [])
          [].

End Cases.

(** * Properties *)

(** ** The model at work *)

Example parse_relative : str (parse "a/./b//c/") = "a/b/c".
Proof. reflexivity. Qed.

Example parse_roots :
  map (λ s, str (parse s)) ["/"; ""; "//a/b"; "///a"] = ["/"; "."; "//a/b"; "/a"].
Proof. reflexivity. Qed.

Example suffix_examples :
  map (λ s, suffix (parse s)) [".dmg"; "a.dmg"; "a.dmg."; "a..dmg"; "a.b.dmg"]
  = [""; ".dmg"; ""; ".dmg"; ".dmg"].
Proof. reflexivity. Qed.

Example get_archive_format_examples :
  get_archive_format <$> ["/dl/bundle.tar.gz"; "/dl/bundle.tgz"; "/dl/a.zip";
                          "/dl/a.gzip"; "/dl/a.tar"; "/dl/a.tbz"; "/dl/a.pkg"]
  = [Some "tar_gzip"; Some "tar_gzip"; Some "zip"; Some "gzip"; Some "tar";
     Some "tar_bzip2"; None].
Proof. reflexivity. Qed.

(** A deletion that is refused ends the run with the error that names the
    path and the reason. *)
Example refused_deletion :
  ∃ st',
    main (Sample.unpack []) Sample.re_match Scenario.locked_file =
      Raise (Processor (CantRemove (parse "/cache/App/old.txt")
                                   "Permission denied")) st' ∧
    message (CantRemove (parse "/cache/App/old.txt") "Permission denied")
      = Some "Can't remove /cache/App/old.txt: Permission denied".
Proof. eexists. split; vm_compute; reflexivity. Qed.

(** An error of the extractor leaves [main] as it is. *)
Example failed_extraction :
  ∃ st',
    main (Sample.broken "unpacking failed") Sample.re_match
         Scenario.zip_download =
      Raise (Processor (FromExtract "unpacking failed")) st' ∧
    trace st' =
      [ GetArchiveFormat "/dl/bundle.zip";
        Output "Guessed archive format 'zip' from filename 'bundle.zip'";
        Extract "zip" "/dl/bundle.zip" "/cache/App" ].
Proof. eexists. split; vm_compute; reflexivity. Qed.

Example re_match_examples :
  (Sample.re_match "App.*\.dmg") <$> ["App-1.dmg.bak"; "xApp.dmg"; "App.dmg"; "Appdmg"]
  = [Some true; Some false; Some true; Some false].
Proof. reflexivity. Qed.

(** ** Facts about strings *)

Section StrFacts.

Implicit Types s t u x : string.

Lemma app_cons a s t : String a s +:+ t = String a (s +:+ t).
Proof. reflexivity. Qed.

Lemma app_nil_r s : s +:+ "" = s.
Proof. induction s as [|a s IH]; [done|]. by rewrite app_cons, IH. Qed.

Lemma app_assoc s t u : (s +:+ t) +:+ u = s +:+ t +:+ u.
Proof. induction s as [|a s IH]; [done|]. by rewrite !app_cons, IH. Qed.

Lemma app_eq_nil s t : s +:+ t = "" → s = "" ∧ t = "".
Proof. by destruct s. Qed.

Lemma app_length s t :
  String.length (s +:+ t) = String.length s + String.length t.
Proof. induction s as [|a s IH]; [done|]. rewrite app_cons. simpl. by rewrite IH. Qed.

(** Two ways of cutting one string: one cut lies before the other. *)
Lemma app_eq_inv s t u x :
  s +:+ t = u +:+ x →
  (∃ k, u = s +:+ k ∧ t = k +:+ x) ∨ (∃ k, s = u +:+ k ∧ x = k +:+ t).
Proof.
  revert u. induction s as [|a s IH]; intros u H.
  - left. by exists u.
  - destruct u as [|b u].
    + right. by exists (String a s).
    + rewrite !app_cons in H. injection H as -> H.
      destruct (IH _ H) as [(k & -> & ->)|(k & -> & ->)]; [left|right];
        by exists k.
Qed.

Lemma contains_app c s t :
  Str.contains c (s +:+ t) = Str.contains c s || Str.contains c t.
Proof.
  induction s as [|a s IH]; [done|].
  rewrite app_cons. simpl. by rewrite IH, orb_assoc.
Qed.

Lemma endswith_refl s : Str.endswith s s = true.
Proof. destruct s; simpl; [done|]. by rewrite decide_True. Qed.

Lemma endswith_cons a s x : Str.endswith s x = true → Str.endswith (String a s) x = true.
Proof. intros H. simpl. by destruct (decide _). Qed.

Lemma endswith_app u x : Str.endswith (u +:+ x) x = true.
Proof.
  induction u as [|a u IH]; [apply endswith_refl|].
  rewrite app_cons. by apply endswith_cons.
Qed.

Lemma endswith_inv s x : Str.endswith s x = true → ∃ u, s = u +:+ x.
Proof.
  induction s as [|a s IH]; simpl; intros H.
  - destruct (decide _) as [<-|]; [by exists ""|done].
  - destruct (decide _) as [<-|]; [by exists ""|].
    destruct (IH H) as [u ->]. by exists (String a u).
Qed.

Lemma endswith_iff s x : Str.endswith s x = true ↔ ∃ u, s = u +:+ x.
Proof. split; [apply endswith_inv|]. intros [u ->]. apply endswith_app. Qed.

Lemma endswith_nil s : Str.endswith s "" = true.
Proof. apply endswith_iff. exists s. by rewrite app_nil_r. Qed.

(** Two suffixes of one string: one is a suffix of the other. *)
Lemma endswith_total s x t :
  Str.endswith s x = true → Str.endswith s t = true →
  Str.endswith x t = true ∨ Str.endswith t x = true.
Proof.
  intros [u ->]%endswith_inv [v H]%endswith_inv.
  destruct (app_eq_inv _ _ _ _ H) as [(k & _ & ->)|(k & _ & ->)];
    [left|right]; apply endswith_app.
Qed.

Lemma endswith_drop i s : Str.endswith s (Str.drop i s) = true.
Proof.
  revert s. induction i as [|i IH]; intros [|a s]; simpl Str.drop;
    try apply endswith_refl.
  by apply endswith_cons.
Qed.

(** A suffix without a slash, of a string cut right after a slash, lies
    after the cut. *)
Lemma endswith_after_slash pre n x :
  Str.contains "/" x = false →
  Str.endswith ((pre +:+ "/") +:+ n) x = true → Str.endswith n x = true.
Proof.
  intros Hx [u H]%endswith_inv.
  destruct (app_eq_inv _ _ _ _ H) as [(k & _ & ->)|(k & Hk & ->)];
    [apply endswith_app|].
  destruct k as [|c k]; [apply endswith_refl|exfalso].
  rewrite contains_app, orb_false_iff in Hx. destruct Hx as [Hx _].
  destruct (app_eq_inv _ _ _ _ Hk) as [(j & _ & Hj)|(j & _ & Hj)].
  - destruct j as [|b j].
    + injection Hj as <- <-. by simpl in Hx.
    + rewrite app_cons in Hj. injection Hj as _ Hj. symmetry in Hj.
      by apply app_eq_nil in Hj as [_ ?].
  - rewrite Hj, contains_app in Hx. simpl in Hx.
    by rewrite orb_true_r in Hx.
Qed.

End StrFacts.

(** ** Facts about paths *)

Section PathFacts.

Lemma join_snoc t n :
  t ≠ [] → Str.join "/" (t ++ [n]) = (Str.join "/" t +:+ "/") +:+ n.
Proof.
  induction t as [|a t IH]; [done|]. intros _.
  destruct t as [|b t]; [simpl; by rewrite app_assoc|].
  change (Str.join "/" ((a :: b :: t) ++ [n]))
    with (a +:+ "/" +:+ Str.join "/" ((b :: t) ++ [n])).
  rewrite IH by discriminate.
  change (Str.join "/" (a :: b :: t)) with (a +:+ "/" +:+ Str.join "/" (b :: t)).
  by rewrite !app_assoc.
Qed.

Lemma name_snoc r t n : name (mkPath r (t ++ [n])) = n.
Proof. unfold name. simpl. by rewrite last_snoc. Qed.

Lemma str_nonnil r t :
  t ≠ [] → str (mkPath r t) = root_str r +:+ Str.join "/" t.
Proof. by destruct r, t. Qed.

(** The text of a path that has a last component ends with it, and what
    comes before is empty or ends with a slash. *)
Lemma str_snoc r t n :
  str (mkPath r (t ++ [n])) = n ∨
  ∃ pre, str (mkPath r (t ++ [n])) = (pre +:+ "/") +:+ n.
Proof.
  rewrite str_nonnil by (by destruct t).
  destruct t as [|a t].
  - destruct r; [by left|right..].
    + by exists "".
    + by exists "/".
  - right. rewrite join_snoc by done.
    exists (root_str r +:+ Str.join "/" (a :: t)).
    by rewrite !app_assoc.
Qed.

(** A suffix of at least two characters and without a slash is found at
    the end of the text of a path only if it is at the end of its name. *)
Lemma str_endswith_name p x :
  Str.contains "/" x = false → 2 ≤ String.length x →
  Str.endswith (str p) x = true → Str.endswith (name p) x = true.
Proof.
  intros Hx Hlen H. destruct p as [r t].
  destruct t as [|n t _] using rev_ind.
  - exfalso. apply endswith_inv in H as [u H].
    assert (String.length (str (mkPath r [])) = String.length u + String.length x)
      as Hl by (by rewrite H, app_length).
    destruct r; simpl in Hl; try lia.
    destruct u; [|simpl in Hl; lia].
    change (str (mkPath DoubleSlash []) = x) in H. by rewrite <- H in Hx.
  - rewrite name_snoc.
    destruct (str_snoc r t n) as [Hs|[pre Hs]]; rewrite Hs in H; [done|].
    by eapply endswith_after_slash.
Qed.

Lemma suffix_endswith p : Str.endswith (name p) (suffix p) = true.
Proof.
  unfold suffix. destruct (Str.rfind _ _); [|apply endswith_nil].
  destruct (_ && _); [apply endswith_drop|apply endswith_nil].
Qed.

Lemma str_nonempty p : name p ≠ "" → str p ≠ "".
Proof.
  destruct p as [r t]. destruct t as [|n t _] using rev_ind; [done|].
  rewrite name_snoc. intros Hn.
  destruct (str_snoc r t n) as [->|[pre ->]]; [done|].
  by intros [_ ?]%app_eq_nil.
Qed.

Lemma dmg_suffix_str_nonempty p : suffix p = ".dmg" → str p ≠ "".
Proof.
  intros H. apply str_nonempty. intros Hn.
  pose proof (suffix_endswith p) as Hs. by rewrite H, Hn in Hs.
Qed.

Lemma resolve_child fs p n : resolve fs (child p n) = resolve fs p ++ [n].
Proof. unfold resolve, child. simpl. destruct (root p); by rewrite ?(assoc_L (++)). Qed.

End PathFacts.

(** ** Format detection *)

Section Detection.

(** No recognized suffix is the end of another one. *)
Lemma dotted_suffixes_apart c1 c2 :
  c1 ∈ dotted_suffixes → c2 ∈ dotted_suffixes →
  Str.endswith c1.2 c2.2 = true → c1 = c2.
Proof.
  assert (Forall (λ c1, Forall (λ c2,
            Str.endswith c1.2 c2.2 = true → c1 = c2) dotted_suffixes)
            dotted_suffixes) as H.
  { apply (bool_decide_unpack _). by vm_compute. }
  rewrite Forall_forall in H. intros H1 H2.
  specialize (H _ H1). rewrite Forall_forall in H. by apply H.
Qed.

Lemma elem_of_dotted_suffixes tag extns extn :
  (tag, extns) ∈ EXTNS → extn ∈ extns →
  (tag, "." +:+ extn) ∈ dotted_suffixes.
Proof.
  intros H1 H2. unfold dotted_suffixes.
  apply list_elem_of_In, in_flat_map. exists (tag, extns).
  split; [by apply list_elem_of_In|].
  apply list_elem_of_In, list_elem_of_fmap. by exists extn.
Qed.

Lemma longest_fold_elem cs acc r :
  foldl longer acc cs = Some r → acc = Some r ∨ r ∈ cs.
Proof.
  revert acc. induction cs as [|c cs IH]; simpl; intros acc H; [by left|].
  apply IH in H as [H|H]; [|right; by right].
  destruct acc as [b|]; simpl in H; [|simplify_eq; right; left].
  destruct (bool_decide _); [simplify_eq; right; left|by left].
Qed.

Lemma longest_fold_some cs acc :
  is_Some acc → is_Some (foldl longer acc cs).
Proof.
  revert acc. induction cs as [|c cs IH]; simpl; intros acc [b ->]; [done|].
  apply IH. simpl. by destruct (bool_decide _).
Qed.

Lemma longest_elem cs r : longest cs = Some r → r ∈ cs.
Proof. intros H. by apply longest_fold_elem in H as [?|?]. Qed.

Lemma longest_some cs : cs ≠ [] → is_Some (longest cs).
Proof.
  destruct cs as [|c cs]; [done|]. intros _.
  unfold longest. simpl. by apply longest_fold_some.
Qed.

(** A filename that ends with a recognized suffix has one candidate only. *)
Lemma suffix_matches_unique filename c c' :
  c ∈ dotted_suffixes → Str.endswith filename c.2 = true →
  c' ∈ suffix_matches filename → c' = c.
Proof.
  intros Hc He [He' Hc']%list_elem_of_filter.
  apply Is_true_true in He'.
  destruct (endswith_total _ _ _ He He') as [H|H];
    [symmetry|]; by apply dotted_suffixes_apart.
Qed.

Lemma get_archive_format_some filename tag sfx :
  (tag, sfx) ∈ dotted_suffixes → Str.endswith filename sfx = true →
  get_archive_format filename = Some tag.
Proof.
  intros Hc He. unfold get_archive_format.
  assert ((tag, sfx) ∈ suffix_matches filename) as Hin.
  { apply list_elem_of_filter. split; [by apply Is_true_true|done]. }
  destruct (longest_some (suffix_matches filename)) as [r Hr].
  { intros Heq. rewrite Heq in Hin. by apply elem_of_nil in Hin. }
  rewrite Hr. simpl. f_equal.
  apply longest_elem in Hr.
  by rewrite (suffix_matches_unique filename (tag, sfx) r).
Qed.

Lemma get_archive_format_none filename :
  (∀ c, c ∈ dotted_suffixes → Str.endswith filename c.2 = false) →
  get_archive_format filename = None.
Proof.
  intros H. unfold get_archive_format.
  destruct (suffix_matches filename) as [|c cs] eqn:Heq; [done|].
  assert (c ∈ suffix_matches filename) as Hc by (rewrite Heq; left).
  apply list_elem_of_filter in Hc as [Hc ?]. apply Is_true_true in Hc.
  by rewrite H in Hc.
Qed.

End Detection.

(** ** Rules for invariants *)

Section InvRules.

Context {I : State → Prop} {E : exn → Prop}.

Lemma inv_ok {A} (m : M A) st a st' :
  inv I E m → I st → m st = Ok a st' → I st'.
Proof. intros Hm HI Heq. specialize (Hm st HI). by rewrite Heq in Hm. Qed.

Lemma inv_raised {A} (m : M A) st e st' :
  inv I E m → I st → m st = Raise e st' → I st' ∧ E e.
Proof. intros Hm HI Heq. specialize (Hm st HI). by rewrite Heq in Hm. Qed.

Lemma inv_ret {A} (a : A) : inv I E (ret a).
Proof. by intros st HI. Qed.

Lemma inv_raise {A} e : E e → inv I E (@raise A e).
Proof. by intros He st HI. Qed.

Lemma inv_bind {A B} (m : M A) (f : A → M B) :
  inv I E m → (∀ a, inv I E (f a)) → inv I E (bind m f).
Proof.
  intros Hm Hf st HI. unfold bind. specialize (Hm st HI).
  destruct (m st) as [a st'|e st']; [by apply Hf|done].
Qed.

Lemma inv_get_env : inv I E get_env.
Proof. by intros st HI. Qed.

Lemma inv_get_fs : inv I E get_fs.
Proof. by intros st HI. Qed.

Lemma inv_env_item k : E (Other (KeyError k)) → inv I E (env_item k).
Proof.
  intros He st HI. unfold env_item, bind, get_env.
  by destruct (env st !! k).
Qed.

Lemma inv_Path_of v : E (Other TypeError) → inv I E (Path_of v).
Proof. intros He st HI. by destruct v. Qed.

Lemma inv_syscall `{!FsStable I} f :
  (∀ e, E (Other (OSError e))) → inv I E (syscall f).
Proof.
  intros He st HI. unfold syscall.
  destruct (f (fs st)); [by apply fs_stable|done].
Qed.

Lemma inv_emit `{!TraceStable I} ev : inv I E (emit ev).
Proof. intros st HI. by apply trace_stable. Qed.

Lemma inv_except_OSError {A} (m : M A) h :
  inv I (λ e, (∃ err, e = Other (OSError err)) ∨ E e) m →
  (∀ err, inv I E (h err)) →
  inv I E (except_OSError m h).
Proof.
  intros Hm Hh st HI. unfold except_OSError. specialize (Hm st HI).
  destruct (m st) as [a st'|e st']; [done|].
  destruct Hm as [HI' He].
  destruct e as [e|[]]; try (by apply Hh);
    (split; [done|]); by destruct He as [[? ?]|?].
Qed.

Lemma inv_except_wrap {A} (m : M A) :
  inv I (λ e, match e with
              | Other ex => E (Processor (FromException ex))
              | _ => E e
              end) m →
  inv I E (except_wrap m).
Proof.
  intros Hm st HI. unfold except_wrap. specialize (Hm st HI).
  destruct (m st) as [a st'|[e|ex] st']; done.
Qed.

Lemma inv_for_each {A} (l : list A) body :
  (∀ x, inv I E (body x)) → inv I E (for_each l body).
Proof.
  intros Hb. induction l as [|x l IH]; [apply inv_ret|].
  by apply inv_bind.
Qed.

Lemma inv_extract `{!FsStable I, !TraceStable I} _extract fmt src dst :
  (∀ msg, E (Processor (FromExtract msg))) → (∀ ex, E (Other ex)) →
  inv I E (extract _extract fmt src dst).
Proof.
  intros He1 He2 st HI. unfold extract.
  destruct (_extract _ _ _ _ _) as [fs' out].
  assert (I (mkState (env st) fs' (trace st ++ [Extract fmt src dst]))) as HI'.
  { by apply (trace_stable (mkState (env st) fs' (trace st))), fs_stable. }
  by destruct out.
Qed.

End InvRules.

Global Instance same_env_trace_fs st0 : FsStable (same_env_trace st0).
Proof. by intros st fs'. Qed.
Global Instance same_env_fs st0 : FsStable (same_env st0).
Proof. by intros st fs'. Qed.
Global Instance same_env_tr st0 : TraceStable (same_env st0).
Proof. by intros st t'. Qed.
Global Instance dmg_path_set_fs : FsStable dmg_path_set.
Proof. by intros st fs'. Qed.
Global Instance dmg_path_set_tr : TraceStable dmg_path_set.
Proof. by intros st t'. Qed.

(** One step of a proof by the rules: the rule for the head of the
    computation, or a case distinction on what it branches on. *)
Ltac inv_step :=
  lazymatch goal with
  | |- inv _ _ (bind _ _) => apply inv_bind; [|intros ?]
  | |- inv _ _ (ret _) => apply inv_ret
  | |- inv _ _ (raise _) => apply inv_raise
  | |- inv _ _ get_env => apply inv_get_env
  | |- inv _ _ get_fs => apply inv_get_fs
  | |- inv _ _ (env_item _) => apply inv_env_item
  | |- inv _ _ (Path_of _) => apply inv_Path_of
  | |- inv _ _ (syscall _) => apply inv_syscall
  | |- inv _ _ (emit _) => apply inv_emit
  | |- inv _ _ (output _) => apply inv_emit
  | |- inv _ _ (for_each _ _) => apply inv_for_each; intros ?
  | |- inv _ _ (except_OSError _ _) => apply inv_except_OSError; [|intros ?]
  | |- inv _ _ (except_wrap _) => apply inv_except_wrap
  | |- inv _ _ (extract _ _ _ _) => apply inv_extract
  | |- inv _ _ (match ?x with _ => _ end) => destruct x
  | |- inv _ _ (if ?x then _ else _) => destruct x
  end.

Ltac inv_auto := repeat (inv_step; try done; try (intros; by auto)).

(** ** What the phases of [main] leave alone *)

Section Frames.

Variable _extract :
  gmap string pyval → string → string → string → FS → FS * extract_outcome.
Variable re_match : string → string → option bool.

(** Input resolution changes nothing. *)
Lemma resolve_inputs_inv st0 :
  inv (λ st, st = st0) (λ _, True) resolve_inputs.
Proof. unfold resolve_inputs. inv_auto. Qed.

Lemma prepare_inv st0 : inv (same_env_trace st0) (λ _, True) prepare.
Proof.
  unfold prepare, resolve_inputs, purge_destination, purge_entry. inv_auto.
Qed.

Lemma canonicalize_inv st0 pathname :
  inv (same_env_trace st0) (λ _, True) (canonicalize pathname).
Proof. unfold canonicalize. inv_auto. Qed.

Lemma unarchive_inv st0 new_pathname destination_path :
  inv (same_env st0) (λ _, True)
      (unarchive _extract new_pathname destination_path).
Proof. unfold unarchive, detect. inv_auto. Qed.

Lemma prepare_frame st p d st1 :
  prepare st = Ok (p, d) st1 → env st1 = env st ∧ trace st1 = trace st.
Proof. intros H. by apply (inv_ok _ _ _ _ (prepare_inv st) (conj eq_refl eq_refl) H). Qed.

Lemma canonicalize_frame p st1 np st2 :
  canonicalize p st1 = Ok np st2 →
  np = new_pathname_of p ∧ env st2 = env st1 ∧ trace st2 = trace st1.
Proof.
  intros H. split.
  - unfold canonicalize, bind, syscall, ret in H.
    destruct (rename _ _ _); by simplify_eq.
  - by apply (inv_ok _ _ _ _ (canonicalize_inv st1 p) (conj eq_refl eq_refl) H).
Qed.

Lemma unarchive_frame np d st2 st3 :
  unarchive _extract np d st2 = Ok () st3 → env st3 = env st2.
Proof. intros H. by apply (inv_ok _ _ _ _ (unarchive_inv st2 np d) eq_refl H). Qed.

(** [main] once the file is renamed. *)
Lemma main_after_rename st p d st1 np st2 :
  prepare st = Ok (p, d) st1 →
  canonicalize p st1 = Ok np st2 →
  main _extract re_match st = except_wrap (finish _extract re_match p np d) st2.
Proof.
  intros H1 H2. unfold main, process, bind, except_wrap.
  by rewrite H1, H2.
Qed.

(** The final check on an environment where [dmg_path] is true. *)
Lemma check_found_set pathname st :
  dmg_path_set st →
  check_found pathname st =
    Ok () (mkState (env st) (fs st)
             (trace st ++ [Output ("Found DMG "
                +:+ py_str (env_get (env st) "dmg_path" VNone)
                +:+ " in file " +:+ str pathname)])).
Proof.
  unfold dmg_path_set, check_found, bind, get_env, env_item, env_get.
  intros H. rewrite H. simpl. unfold bind, get_env.
  destruct (env st !! "dmg_path"); [done|]. by simpl in H.
Qed.

Lemma check_found_unset pathname st :
  ¬ dmg_path_set st →
  check_found pathname st = Raise (Processor NoDmgLocated) st.
Proof.
  unfold dmg_path_set, check_found, bind, get_env.
  intros H. by destruct (truthy _).
Qed.

(** What [glob] yields for ["*.dmg"] has a name with that ending. *)
Lemma glob_dmg_name fs d f :
  f ∈ glob fs d "*.dmg" → Str.endswith (name f) ".dmg" = true.
Proof.
  unfold glob. destruct (is_dir fs d); [|by intros ?%elem_of_nil].
  intros (n & -> & [Hn _]%list_elem_of_filter)%list_elem_of_fmap.
  unfold child. rewrite name_snoc. by apply Is_true_true.
Qed.

Lemma glob_dmg_str fs d f : f ∈ glob fs d "*.dmg" → str f ≠ "".
Proof.
  intros H%glob_dmg_name. apply str_nonempty. intros Hn.
  by rewrite Hn in H.
Qed.

Lemma dmg_path_set_insert st s :
  s ≠ "" →
  dmg_path_set (mkState (<["dmg_path" := VStr s]> (env st)) (fs st) (trace st)).
Proof.
  intros Hs. unfold dmg_path_set, env_get. simpl.
  rewrite lookup_insert_eq. simpl. by rewrite bool_decide_eq_false_2.
Qed.

End Frames.

(** ** Format detection (C5) *)

(** C5.  A filename that ends with one of the recognized suffixes
    ([.zip]; [.tar.gz], [.tgz]; [.tar.bz2], [.tbz]; [.tar]; [.gzip]) is given
    exactly the tag of that suffix's group; in particular a name ending in
    [.tar.gz] or [.tgz] is tagged [tar_gzip], never [gzip] or [tar]. *)
Theorem recognized_suffix_gives_its_tag (filename : string) :
  (∀ tag extns extn,
      (tag, extns) ∈ EXTNS → extn ∈ extns →
      Str.endswith filename ("." +:+ extn) = true →
      get_archive_format filename = Some tag) ∧
  (Str.endswith filename ".tar.gz" = true ∨ Str.endswith filename ".tgz" = true →
   get_archive_format filename = Some "tar_gzip" ∧
   get_archive_format filename ≠ Some "gzip" ∧
   get_archive_format filename ≠ Some "tar").
Proof.
  assert (∀ tag extns extn,
      (tag, extns) ∈ EXTNS → extn ∈ extns →
      Str.endswith filename ("." +:+ extn) = true →
      get_archive_format filename = Some tag) as H.
  { intros tag extns extn H1 H2 H3.
    apply (get_archive_format_some filename tag ("." +:+ extn)); [|done].
    by eapply elem_of_dotted_suffixes. }
  split; [done|].
  intros Hs.
  assert (get_archive_format filename = Some "tar_gzip") as ->; [|done].
  destruct Hs as [Hs|Hs].
  - apply (H "tar_gzip" ["tar.gz"; "tgz"] "tar.gz"); [|by left|done].
    right; left.
  - apply (H "tar_gzip" ["tar.gz"; "tgz"] "tgz"); [|right; by left|done].
    right; left.
Qed.

Lemma recognized_suffix_gives_its_tag_witness :
  (("tar_bzip2", ["tar.bz2"; "tbz"]) ∈ EXTNS ∧ "tbz" ∈ ["tar.bz2"; "tbz"] ∧
   Str.endswith "/dl/a.tbz" ".tbz" = true ∧
   Str.endswith "/dl/bundle.tar.gz" ".tar.gz" = true) ∧
  get_archive_format "/dl/a.tbz" = Some "tar_bzip2" ∧
  get_archive_format "/dl/bundle.tar.gz" = Some "tar_gzip" ∧
  get_archive_format "/dl/bundle.tar.gz" ≠ Some "gzip" ∧
  get_archive_format "/dl/bundle.tar.gz" ≠ Some "tar".
Proof.
  assert (("tar_bzip2", ["tar.bz2"; "tbz"]) ∈ EXTNS) as H1
    by (right; right; left).
  assert ("tbz" ∈ ["tar.bz2"; "tbz"]) as H2 by (right; left).
  split; [by repeat split|]. split.
  - exact (proj1 (recognized_suffix_gives_its_tag "/dl/a.tbz")
             _ _ _ H1 H2 eq_refl).
  - exact (proj2 (recognized_suffix_gives_its_tag "/dl/bundle.tar.gz")
             (or_introl eq_refl)).
Defined.

(** ** After the renaming (C6, C4) *)

Section AfterRename.

Variable _extract :
  gmap string pyval → string → string → string → FS → FS * extract_outcome.
Variable re_match : string → string → option bool.

Lemma dotted_suffixes_inv c :
  c ∈ dotted_suffixes →
  ∃ tag extns extn,
    (tag, extns) ∈ EXTNS ∧ extn ∈ extns ∧ c = (tag, "." +:+ extn).
Proof.
  unfold dotted_suffixes.
  intros ([tag extns] & H1 & H2)%list_elem_of_In%in_flat_map.
  apply list_elem_of_In, list_elem_of_fmap in H2 as (extn & -> & H2).
  exists tag, extns, extn. by rewrite list_elem_of_In.
Qed.

(** The recognized suffixes have no slash and at least two characters. *)
Lemma dotted_suffixes_shape c :
  c ∈ dotted_suffixes →
  Str.contains "/" c.2 = false ∧ 2 ≤ String.length c.2.
Proof.
  assert (Forall (λ c, Str.contains "/" c.2 = false ∧ 2 ≤ String.length c.2)
            dotted_suffixes) as H.
  { apply (bool_decide_unpack _). by vm_compute. }
  rewrite Forall_forall in H. apply H.
Qed.

(** C6.  When the renamed file has the extension [.dmg], [main] succeeds
    with the renamed path itself under [dmg_path]; the one thing it does
    through the inherited methods is the closing [output], so the format
    is not guessed and nothing is extracted. *)
Theorem dmg_source_is_the_result st p d st1 np st2 :
  prepare st = Ok (p, d) st1 →
  canonicalize p st1 = Ok np st2 →
  suffix np = ".dmg" →
  main _extract re_match st =
    Ok () (mkState (<["dmg_path" := VStr (str np)]> (env st)) (fs st2)
             (trace st ++ [Output ("Found DMG " +:+ str np
                                   +:+ " in file " +:+ str p)])).
Proof.
  intros H1 H2 Hs.
  rewrite (main_after_rename _ _ _ _ _ _ _ _ H1 H2).
  destruct (prepare_frame _ _ _ _ H1) as [He1 Ht1].
  destruct (canonicalize_frame _ _ _ _ H2) as (_ & He2 & Ht2).
  unfold except_wrap, finish, bind. rewrite Hs. simpl.
  rewrite check_found_set
    by (apply dmg_path_set_insert; by apply dmg_suffix_str_nonempty).
  unfold env_get. simpl. rewrite lookup_insert_eq. simpl.
  by rewrite He2, He1, Ht2, Ht1.
Qed.

(** C4.  When the name of the renamed file does not end in [.dmg] and
    ends with none of the recognized suffixes, [main] fails with the
    [ProcessorError] that says it cannot guess the format of that name;
    the format was asked for, and nothing was extracted. *)
Theorem unrecognized_format_fails st p d st1 np st2 :
  prepare st = Ok (p, d) st1 →
  canonicalize p st1 = Ok np st2 →
  Str.endswith (name np) ".dmg" = false →
  (∀ tag extns extn,
      (tag, extns) ∈ EXTNS → extn ∈ extns →
      Str.endswith (name np) ("." +:+ extn) = false) →
  main _extract re_match st =
    Raise (Processor (CantGuessFormat (name np)))
          (mkState (env st) (fs st2)
                   (trace st ++ [GetArchiveFormat (str np)])) ∧
  message (CantGuessFormat (name np)) =
    Some ("Can't guess archive format for filename '" +:+ name np +:+ "'").
Proof.
  intros H1 H2 Hd Hx. split; [|done].
  rewrite (main_after_rename _ _ _ _ _ _ _ _ H1 H2).
  destruct (prepare_frame _ _ _ _ H1) as [He1 Ht1].
  destruct (canonicalize_frame _ _ _ _ H2) as (_ & He2 & Ht2).
  assert (suffix np ≠ ".dmg") as Hs.
  { intros Hs. pose proof (suffix_endswith np) as He.
    by rewrite Hs, Hd in He. }
  assert (get_archive_format (str np) = None) as Hg.
  { apply get_archive_format_none. intros c Hc.
    destruct (dotted_suffixes_shape c Hc) as [Hc1 Hc2].
    destruct (Str.endswith (str np) c.2) eqn:He; [|done].
    apply str_endswith_name in He; [|done..].
    apply dotted_suffixes_inv in Hc as (tag & extns & extn & ? & ? & ->).
    simpl in He. by rewrite (Hx tag extns extn) in He. }
  unfold except_wrap, finish, bind.
  rewrite bool_decide_eq_false_2 by done.
  unfold unarchive, detect, bind, emit, ret. rewrite Hg. simpl.
  unfold raise. by rewrite He2, He1, Ht2, Ht1.
Qed.

End AfterRename.

Lemma dmg_source_is_the_result_witness :
  let st := Scenario.dmg_download in
  let p := parse "/dl/app-installer.dmg?sig=abc123" in
  let d := parse "/cache/App" in
  let np := parse "/dl/app-installer.dmg" in
  let st1 := final_state (prepare st) in
  let st2 := final_state (canonicalize p st1) in
  (prepare st = Ok (p, d) st1 ∧ canonicalize p st1 = Ok np st2 ∧
   suffix np = ".dmg") ∧
  main (Sample.unpack []) Sample.re_match st =
    Ok () (mkState (<["dmg_path" := VStr (str np)]> (env st)) (fs st2)
             (trace st ++ [Output ("Found DMG " +:+ str np
                                   +:+ " in file " +:+ str p)])).
Proof.
  intros st p d np st1 st2.
  assert (prepare st = Ok (p, d) st1) as H1 by (vm_compute; reflexivity).
  assert (canonicalize p st1 = Ok np st2) as H2 by (vm_compute; reflexivity).
  assert (suffix np = ".dmg") as H3 by reflexivity.
  split; [done|].
  exact (dmg_source_is_the_result (Sample.unpack []) Sample.re_match
           st p d st1 np st2 H1 H2 H3).
Defined.

Lemma unrecognized_format_fails_witness :
  let st := Scenario.pkg_download in
  let p := parse "/dl/app.pkg" in
  let d := parse "/cache/App" in
  let st1 := final_state (prepare st) in
  let st2 := final_state (canonicalize p st1) in
  (prepare st = Ok (p, d) st1 ∧ canonicalize p st1 = Ok p st2 ∧
   Str.endswith (name p) ".dmg" = false) ∧
  main (Sample.unpack []) Sample.re_match st =
    Raise (Processor (CantGuessFormat (name p)))
          (mkState (env st) (fs st2)
                   (trace st ++ [GetArchiveFormat (str p)])).
Proof.
  intros st p d st1 st2.
  assert (prepare st = Ok (p, d) st1) as H1 by (vm_compute; reflexivity).
  assert (canonicalize p st1 = Ok p st2) as H2 by (vm_compute; reflexivity).
  assert (Str.endswith (name p) ".dmg" = false) as H3 by reflexivity.
  split; [done|].
  refine (proj1 (unrecognized_format_fails (Sample.unpack []) Sample.re_match
                   st p d st1 p st2 H1 H2 H3 _)).
  intros tag extns extn Hg He.
  apply list_elem_of_In in Hg. simpl in Hg.
  destruct_or!; simplify_eq; apply list_elem_of_In in He; simpl in He;
    destruct_or!; by simplify_eq.
Defined.

(** ** Input resolution (C8) *)

Section Inputs.

Variable _extract :
  gmap string pyval → string → string → string → FS → FS * extract_outcome.
Variable re_match : string → string → option bool.

Lemma Path_of_ok v st p st' :
  Path_of v st = Ok p st' → ∃ s, v = VStr s ∧ p = parse s ∧ st' = st.
Proof. destruct v; [done..|]. intros [= <- <-]. by eexists. Qed.

Lemma main_resolve_raise st e st' :
  resolve_inputs st = Raise e st' → main _extract re_match st = Raise e st'.
Proof. intros H. unfold main, prepare, bind. by rewrite H. Qed.

(** C8.  Without a source path under [archive_path] or [pathname], [main]
    fails with the [ProcessorError] that asks for a [pathname]; with a source
    path that does not exist, it fails with the [ProcessorError] that names
    the missing path; without a [destination_path], the destination is the
    cache directory joined with the recipe name; and resolving the inputs
    leaves environment, file system and trace as they were. *)
Theorem input_resolution st :
  (env st !! "archive_path" = None → env st !! "pathname" = None →
   main _extract re_match st = Raise (Processor ExpectedPathname) st) ∧
  (∀ s,
     env_get (env st) "archive_path" (env_get (env st) "pathname" VNone) = VStr s →
     s ≠ "" → exists_ (fs st) (parse s) = false →
     main _extract re_match st = Raise (Processor (PathnameMissing (parse s))) st) ∧
  (∀ p d st',
     resolve_inputs st = Ok (p, d) st' →
     env st !! "destination_path" = None →
     ∃ cache name,
       env st !! "RECIPE_CACHE_DIR" = Some (VStr cache) ∧
       env st !! "NAME" = Some (VStr name) ∧
       d = join (parse cache) (parse name)) ∧
  final_state (resolve_inputs st) = st.
Proof.
  repeat split.
  - intros Ha Hp. apply main_resolve_raise.
    unfold resolve_inputs, bind, get_env, env_get. by rewrite Ha, Hp.
  - intros s Hs Hne Hex. apply main_resolve_raise.
    unfold resolve_inputs, bind, get_env. rewrite Hs. simpl.
    rewrite bool_decide_eq_false_2 by done. simpl.
    unfold bind, ret, get_fs. by rewrite Hex.
  - intros p d st' H Hd.
    unfold resolve_inputs, bind, get_env, get_fs, env_item, raise in H.
    rewrite Hd in H.
    repeat (case_match; simplify_eq/=; try done).
    unfold bind, get_env in *.
    repeat (case_match; simplify_eq/=; try done).
    repeat match goal with
           | H : Path_of _ _ = Ok _ _ |- _ =>
               apply Path_of_ok in H as (? & ? & ? & ?)
           end.
    unfold ret in *. simplify_eq. eauto.
  - pose proof (resolve_inputs_inv st st eq_refl) as H.
    by destruct (resolve_inputs st) as [? ?|? ?]; [|destruct H].
Qed.

End Inputs.

Lemma input_resolution_witness :
  let run := main (Sample.unpack []) Sample.re_match in
  run Scenario.no_pathname =
    Raise (Processor ExpectedPathname) Scenario.no_pathname ∧
  run Scenario.missing_download =
    Raise (Processor (PathnameMissing (parse "/dl/bundle.zip")))
          Scenario.missing_download ∧
  ∃ cache name,
    env Scenario.dmg_download !! "RECIPE_CACHE_DIR" = Some (VStr cache) ∧
    env Scenario.dmg_download !! "NAME" = Some (VStr name) ∧
    parse "/cache/App" = join (parse cache) (parse name).
Proof.
  intros run.
  pose proof (input_resolution (Sample.unpack []) Sample.re_match) as H.
  split; [|split].
  - apply (proj1 (H Scenario.no_pathname)); reflexivity.
  - apply (proj1 (proj2 (H Scenario.missing_download)) "/dl/bundle.zip");
      [reflexivity|discriminate|reflexivity].
  - apply (proj1 (proj2 (proj2 (H Scenario.dmg_download)))
             (parse "/dl/app-installer.dmg?sig=abc123") (parse "/cache/App")
             Scenario.dmg_download);
      reflexivity.
Defined.

(** ** The locator and the final check (C3, C10) *)

Section Locator.

Variable _extract :
  gmap string pyval → string → string → string → FS → FS * extract_outcome.
Variable re_match : string → string → option bool.

(** No listed file is matched: the loop ends without touching anything. *)
Lemma locate_loop_none file_regex files st :
  Forall (λ f, re_match file_regex (name f) = Some false) files →
  locate_loop re_match file_regex files st = Ok () st.
Proof.
  induction 1 as [|f files Hf _ IH]; [done|]. simpl. by rewrite Hf.
Qed.

(** The first listed file that is matched is the one recorded. *)
Lemma locate_loop_first file_regex pre f post st :
  Forall (λ f, re_match file_regex (name f) = Some false) pre →
  re_match file_regex (name f) = Some true →
  locate_loop re_match file_regex (pre ++ f :: post) st =
    Ok () (mkState (<["dmg_path" := VStr (str f)]> (env st)) (fs st) (trace st)).
Proof.
  intros Hpre Hf. induction Hpre as [|g pre Hg _ IH]; simpl.
  - by rewrite Hf.
  - by rewrite Hg.
Qed.

Lemma locate_dmg_run d st recipe_name :
  env st !! "NAME" = Some recipe_name →
  locate_dmg re_match d st =
    locate_loop re_match (py_str recipe_name +:+ ".*\.dmg")
                (glob (fs st) d "*.dmg") st.
Proof.
  intros H. unfold locate_dmg, env_item, bind, get_env, get_fs.
  by rewrite H.
Qed.

(** [main] once the archive is unpacked. *)
Lemma main_after_unarchive st p d st1 np st2 st3 :
  prepare st = Ok (p, d) st1 →
  canonicalize p st1 = Ok np st2 →
  suffix np ≠ ".dmg" →
  unarchive _extract np d st2 = Ok () st3 →
  main _extract re_match st =
    except_wrap (locate_dmg re_match d >> check_found p) st3
  ∧ env st3 = env st.
Proof.
  intros H1 H2 Hs H3. split.
  - rewrite (main_after_rename _ _ _ _ _ _ _ _ H1 H2).
    unfold except_wrap, finish, bind.
    rewrite bool_decide_eq_false_2 by done. by rewrite H3.
  - rewrite (unarchive_frame _ _ _ _ _ H3).
    destruct (canonicalize_frame _ _ _ _ H2) as (_ & -> & _).
    by destruct (prepare_frame _ _ _ _ H1) as [-> _].
Qed.

Lemma set_dmg_path_inv E s :
  s ≠ "" → inv dmg_path_set E (set_env "dmg_path" (VStr s)).
Proof. intros Hs st _. by apply dmg_path_set_insert. Qed.

Lemma locate_loop_inv E file_regex files :
  (∀ ex, E (Other ex)) →
  Forall (λ f, str f ≠ "") files →
  inv dmg_path_set E (locate_loop re_match file_regex files).
Proof.
  intros HE. induction 1 as [|f files Hf _ IH]; simpl; [apply inv_ret|].
  destruct (re_match _ _) as [[]|];
    [by apply set_dmg_path_inv|done|by apply inv_raise].
Qed.

Lemma check_found_inv E pathname : inv dmg_path_set E (check_found pathname).
Proof. intros st HI. by rewrite check_found_set. Qed.

(** With a true value under [dmg_path] from the start, no step of [main]
    loses it, and [main] does not raise the error of the final check. *)
Lemma main_keeps_dmg_path :
  inv dmg_path_set (λ e, e ≠ Processor NoDmgLocated) (main _extract re_match).
Proof.
  unfold main, prepare, process, finish.
  apply inv_bind; [unfold resolve_inputs, purge_destination, purge_entry|];
    [inv_auto|].
  intros [p d]. apply inv_except_wrap, inv_bind.
  { unfold canonicalize. inv_auto. }
  intros np. apply inv_bind; [|intros _; apply check_found_inv].
  destruct (bool_decide (suffix np = ".dmg")) eqn:Hs.
  - apply bool_decide_eq_true in Hs.
    by apply set_dmg_path_inv, dmg_suffix_str_nonempty.
  - apply inv_bind; [unfold unarchive, detect; inv_auto|].
    intros _. unfold locate_dmg. inv_auto.
    apply locate_loop_inv; [done|].
    apply Forall_forall. intros f Hf. by eapply glob_dmg_str.
Qed.

(** C10.  When the environment holds a true value under [dmg_path] at the
    start, [main] never fails with the error that no DMG was located; and
    when the archive is unpacked and the pattern matches no [.dmg] child of
    the destination, [main] succeeds with that earlier value still under
    [dmg_path], and reports it. *)
Theorem stale_dmg_path_passes_the_check st :
  dmg_path_set st →
  (∀ st', main _extract re_match st ≠ Raise (Processor NoDmgLocated) st') ∧
  (∀ p d st1 np st2 st3 recipe_name,
      prepare st = Ok (p, d) st1 →
      canonicalize p st1 = Ok np st2 →
      suffix np ≠ ".dmg" →
      unarchive _extract np d st2 = Ok () st3 →
      env st !! "NAME" = Some recipe_name →
      Forall (λ f, re_match (py_str recipe_name +:+ ".*\.dmg") (name f)
                   = Some false)
             (glob (fs st3) d "*.dmg") →
      main _extract re_match st =
        Ok () (mkState (env st) (fs st3)
                 (trace st3 ++
                    [Output ("Found DMG "
                             +:+ py_str (env_get (env st) "dmg_path" VNone)
                             +:+ " in file " +:+ str p)]))).
Proof.
  intros Hset. split.
  - intros st' H.
    by destruct (inv_raised _ _ _ _ main_keeps_dmg_path Hset H) as [_ ?].
  - intros p d st1 np st2 st3 recipe_name H1 H2 Hs H3 Hn Hno.
    destruct (main_after_unarchive _ _ _ _ _ _ _ H1 H2 Hs H3) as [-> He].
    unfold except_wrap, bind.
    rewrite (locate_dmg_run d st3 recipe_name) by (by rewrite He).
    rewrite locate_loop_none by done.
    rewrite check_found_set by (unfold dmg_path_set; by rewrite He).
    by rewrite He.
Qed.

(** C3, as the code has it.  When the renamed file is not a [.dmg] and has
    been unpacked, the children of the destination whose name ends in
    [.dmg] are tried in listing order against the pattern made of the recipe
    name followed by [.*\.dmg]: the first one matched becomes [dmg_path];
    when none is matched and the environment held no true [dmg_path] at the
    start, [main] fails with the error that no DMG was located. *)
Theorem locator_takes_first_match st p d st1 np st2 st3 recipe_name :
  prepare st = Ok (p, d) st1 →
  canonicalize p st1 = Ok np st2 →
  suffix np ≠ ".dmg" →
  unarchive _extract np d st2 = Ok () st3 →
  env st !! "NAME" = Some recipe_name →
  let no_match f :=
    re_match (py_str recipe_name +:+ ".*\.dmg") (name f) = Some false in
  let files := glob (fs st3) d "*.dmg" in
  (∀ pre f post,
      files = pre ++ f :: post → Forall no_match pre →
      re_match (py_str recipe_name +:+ ".*\.dmg") (name f) = Some true →
      main _extract re_match st =
        Ok () (mkState (<["dmg_path" := VStr (str f)]> (env st)) (fs st3)
                 (trace st3 ++ [Output ("Found DMG " +:+ str f
                                        +:+ " in file " +:+ str p)]))) ∧
  (Forall no_match files → ¬ dmg_path_set st →
   main _extract re_match st =
     Raise (Processor NoDmgLocated) (mkState (env st) (fs st3) (trace st3))).
Proof.
  intros H1 H2 Hs H3 Hn no_match files.
  destruct (main_after_unarchive _ _ _ _ _ _ _ H1 H2 Hs H3) as [-> He].
  split.
  - intros pre f post Hfiles Hpre Hf.
    unfold except_wrap, bind.
    rewrite (locate_dmg_run d st3 recipe_name) by (by rewrite He).
    fold files. rewrite Hfiles, locate_loop_first by done.
    assert (str f ≠ "") as Hne.
    { apply (glob_dmg_str (fs st3) d). fold files. rewrite Hfiles.
      apply elem_of_app. right. left. }
    rewrite check_found_set by (by apply dmg_path_set_insert).
    unfold env_get. simpl. rewrite lookup_insert_eq. simpl. by rewrite He.
  - intros Hno Hunset.
    unfold except_wrap, bind.
    rewrite (locate_dmg_run d st3 recipe_name) by (by rewrite He).
    rewrite locate_loop_none by done.
    rewrite check_found_unset by (unfold dmg_path_set; by rewrite He).
    destruct st3 as [e3 f3 t3]. simpl in *. by rewrite He.
Qed.

End Locator.

Lemma stale_dmg_path_passes_the_check_witness :
  let run := main (Sample.unpack ["README"]) Sample.re_match in
  let st := Scenario.stale_dmg_path in
  let p := parse "/dl/bundle.zip" in
  let d := parse "/cache/App" in
  let st1 := final_state (prepare st) in
  let st2 := final_state (canonicalize p st1) in
  let st3 := final_state (unarchive (Sample.unpack ["README"]) p d st2) in
  (dmg_path_set st ∧ glob (fs st3) d "*.dmg" = []) ∧
  (∀ st', run st ≠ Raise (Processor NoDmgLocated) st') ∧
  run st =
    Ok () (mkState (env st) (fs st3)
             (trace st3 ++
                [Output "Found DMG /old/stale.dmg in file /dl/bundle.zip"])).
Proof.
  intros run st p d st1 st2 st3.
  assert (dmg_path_set st) as H0 by reflexivity.
  assert (glob (fs st3) d "*.dmg" = []) as Hg by (vm_compute; reflexivity).
  pose proof (stale_dmg_path_passes_the_check
                (Sample.unpack ["README"]) Sample.re_match st H0) as [Ha Hb].
  split; [done|]. split; [exact Ha|].
  apply (Hb p d st1 p st2 st3 (VStr "App")); try (vm_compute; reflexivity).
  - discriminate.
  - rewrite Hg. constructor.
Defined.

Lemma locator_takes_first_match_witness :
  let p := parse "/dl/bundle.tar.gz?token=xyz" in
  let np := parse "/dl/bundle.tar.gz" in
  let d := parse "/cache/MyRecipeName" in
  let st := Scenario.tgz_download in
  let st1 := final_state (prepare st) in
  let st2 := final_state (canonicalize p st1) in
  let st3 := final_state (unarchive (Sample.unpack Scenario.images) np d st2) in
  let q := parse "/dl/bundle.zip" in
  let e := parse "/cache/App" in
  let zt := Scenario.zip_download in
  let zt1 := final_state (prepare zt) in
  let zt2 := final_state (canonicalize q zt1) in
  let zt3 := final_state (unarchive (Sample.unpack ["README"]) q e zt2) in
  (glob (fs st3) d "*.dmg" =
     [child d "Other.dmg"] ++ child d "MyRecipeName-1.2.dmg"
       :: [child d "MyRecipeName-1.3.dmg"]) ∧
  main (Sample.unpack Scenario.images) Sample.re_match st =
    Ok () (mkState (<["dmg_path" := VStr "/cache/MyRecipeName/MyRecipeName-1.2.dmg"]>
                      (env st))
             (fs st3)
             (trace st3 ++
                [Output ("Found DMG /cache/MyRecipeName/MyRecipeName-1.2.dmg"
                         +:+ " in file /dl/bundle.tar.gz?token=xyz")])) ∧
  (glob (fs zt3) e "*.dmg" = [] ∧ ¬ dmg_path_set zt) ∧
  main (Sample.unpack ["README"]) Sample.re_match zt =
    Raise (Processor NoDmgLocated) (mkState (env zt) (fs zt3) (trace zt3)).
Proof.
  intros p np d st st1 st2 st3 q e zt zt1 zt2 zt3.
  assert (glob (fs st3) d "*.dmg" =
            [child d "Other.dmg"] ++ child d "MyRecipeName-1.2.dmg"
              :: [child d "MyRecipeName-1.3.dmg"]) as Hg
    by (vm_compute; reflexivity).
  assert (glob (fs zt3) e "*.dmg" = []) as Hz by (vm_compute; reflexivity).
  assert (¬ dmg_path_set zt) as Hu by (vm_compute; discriminate).
  split; [exact Hg|]. split; [|split; [done|]].
  - refine (proj1 (locator_takes_first_match
                     (Sample.unpack Scenario.images) Sample.re_match
                     st p d st1 np st2 st3 (VStr "MyRecipeName")
                     _ _ _ _ _) _ _ _ Hg _ _);
      try (vm_compute; reflexivity).
    + discriminate.
    + repeat constructor.
  - refine (proj2 (locator_takes_first_match
                     (Sample.unpack ["README"]) Sample.re_match
                     zt q e zt1 q zt2 zt3 (VStr "App")
                     _ _ _ _ _) _ Hu);
      try (vm_compute; reflexivity).
    + discriminate.
    + rewrite Hz. constructor.
Defined.

(** C3 as the claim has it fails twice over.  With an earlier [dmg_path] in
    the environment, an archive that leaves no [.dmg] in the destination
    does not make [main] fail; and when the source is itself a disk image
    the destination is not searched: an image there that carries the recipe
    name is passed over for the source. *)
Lemma locator_claim_counterexample :
  let st := Scenario.stale_dmg_path in
  let r := main (Sample.unpack ["README"]) Sample.re_match st in
  let st' := Scenario.dmg_beside_image in
  let r' := main (Sample.unpack []) Sample.re_match st' in
  (glob (fs (final_state r)) (parse "/cache/App") "*.dmg" = [] ∧
   r = Ok () (final_state r) ∧
   r ≠ Raise (Processor NoDmgLocated) (final_state r)) ∧
  (glob (fs (final_state r')) (parse "/cache/App") "*.dmg"
     = [parse "/cache/App/App-1.0.dmg"] ∧
   Sample.re_match "App.*\.dmg" "App-1.0.dmg" = Some true ∧
   r' = Ok () (final_state r') ∧
   env (final_state r') !! "dmg_path" = Some (VStr "/dl/app-installer.dmg")).
Proof.
  intros st r st' r'.
  assert (r = Ok () (final_state r)) as Hr by (vm_compute; reflexivity).
  repeat split; try (vm_compute; reflexivity).
  rewrite Hr. discriminate.
Qed.

(** ** The purge (C1, C9) *)

Section Purge.

Lemma fnmatch_star n : fnmatch "*" n = true.
Proof. apply endswith_nil. Qed.

(** The pattern ["*"] keeps every name of the listing, dotted or not. *)
Lemma glob_star fs d :
  is_dir fs d = true → glob fs d "*" = child d <$> listdir fs (resolve fs d).
Proof.
  intros Hd. unfold glob. rewrite Hd. f_equal.
  induction (listdir fs (resolve fs d)) as [|n ns IH]; [done|].
  rewrite filter_cons_True by (by rewrite fnmatch_star). by rewrite IH.
Qed.

(** A real subdirectory stops the purge with the [NameError] of line 117. *)
Lemma purge_entry_directory file_path st :
  lstat (fs st) (resolve (fs st) file_path) = Some (Plain Directory) →
  purge_entry file_path st = Raise (Other (NameError "path")) st.
Proof.
  intros H.
  unfold purge_entry, except_OSError, bind, get_fs, is_dir, is_symlink, stat.
  by rewrite H.
Qed.

(** For an entry that is not a real directory, a deletion that the system
    refuses stops the purge with the [ProcessorError] that names the path
    and the reason. *)
Lemma purge_entry_refused file_path st e :
  is_dir (fs st) file_path && negb (is_symlink (fs st) file_path) = false →
  unlink (fs st) file_path = Failure e →
  purge_entry file_path st =
    Raise (Processor (CantRemove file_path (strerror e))) st ∧
  message (CantRemove file_path (strerror e)) =
    Some ("Can't remove " +:+ str file_path +:+ ": " +:+ strerror e).
Proof.
  intros Hd H. split; [|done].
  unfold purge_entry, except_OSError, bind, get_fs. rewrite Hd.
  unfold syscall. by rewrite H.
Qed.

(** An entry that the purge gets past has been unlinked. *)
Lemma purge_entry_ok file_path st st' :
  purge_entry file_path st = Ok () st' →
  st' = mkState (env st)
                (remove_entry (resolve (fs st) file_path) (fs st)) (trace st).
Proof.
  unfold purge_entry, except_OSError, bind, get_fs, syscall, unlink, raise.
  intros H. repeat (case_match; simplify_eq/=; try done).
Qed.

Lemma purge_loop_ok d ns st st' :
  for_each (child d <$> ns) purge_entry st = Ok () st' →
  cwd (fs st') = cwd (fs st) ∧
  entries (fs st') =
    filter (λ e, e.1 ∉ (λ n, resolve (fs st) d ++ [n]) <$> ns) (entries (fs st)).
Proof.
  revert st. induction ns as [|n ns IH]; intros st H.
  - injection H as <-. split; [done|].
    induction (entries (fs st)) as [|e es IHe]; [done|].
    rewrite filter_cons_True by apply not_elem_of_nil. by rewrite <- IHe.
  - simpl in H. unfold bind in H.
    destruct (purge_entry _ st) as [[] st1|] eqn:H1; [|done].
    apply purge_entry_ok in H1. apply IH in H as [Hc He].
    subst st1. simpl in *. split; [done|].
    rewrite He, list_filter_filter.
    assert (resolve (remove_entry (resolve (fs st) (child d n)) (fs st)) d
            = resolve (fs st) d) as -> by done.
    apply list_filter_iff. intros e. rewrite resolve_child.
    rewrite not_elem_of_cons. tauto.
Qed.

Lemma assoc_filter_other {V} (k k' : list string)
    (l : list (list string * V)) :
  k ≠ k' → assoc k (filter (λ e, e.1 ≠ k') l) = assoc k l.
Proof.
  intros Hk. induction l as [|[k0 v] l IH]; [done|].
  destruct (decide (k0 = k')) as [->|Hne].
  - rewrite filter_cons_False by (simpl; by intros ?). simpl.
    by rewrite decide_False.
  - rewrite filter_cons_True by done. simpl. by rewrite IH.
Qed.

(** A purge loop that runs to its end has met no real subdirectory. *)
Lemma purge_loop_no_directory d ns st st' :
  for_each (child d <$> ns) purge_entry st = Ok () st' →
  ∀ n, n ∈ ns →
       lstat (fs st) (resolve (fs st) d ++ [n]) ≠ Some (Plain Directory).
Proof.
  revert st. induction ns as [|n0 ns IH]; intros st H n Hn;
    [by apply elem_of_nil in Hn|].
  simpl in H. unfold bind in H.
  destruct (purge_entry _ st) as [[] st1|] eqn:H1; [|done].
  assert (lstat (fs st) (resolve (fs st) d ++ [n0]) ≠ Some (Plain Directory))
    as Hhead.
  { intros Hdir. rewrite <- resolve_child in Hdir.
    by rewrite (purge_entry_directory _ _ Hdir) in H1. }
  destruct (decide (n = n0)) as [->|Hne]; [done|].
  apply elem_of_cons in Hn as [?|Hn]; [done|].
  apply purge_entry_ok in H1. specialize (IH _ H n Hn).
  subst st1. simpl in IH. rewrite resolve_child in IH.
  assert (resolve (remove_entry (resolve (fs st) d ++ [n0]) (fs st)) d
          = resolve (fs st) d) as Hr by done.
  rewrite Hr in IH. unfold lstat in *.
  rewrite decide_False in * by (by destruct (resolve _ _)).
  simpl in IH. rewrite assoc_filter_other in IH; [done|].
  intros Heq. by apply app_inj_tail in Heq as [_ ?].
Qed.

(** With the purge option set, a destination that holds a real
    subdirectory is never purged to the end. *)
Lemma purge_never_passes_a_subdirectory destination_path st st' :
  truthy (env_get (env st) "purge_destination" VNone) = true →
  is_dir (fs st) destination_path = true →
  purge_destination destination_path st = Ok () st' →
  ∀ n, n ∈ listdir (fs st) (resolve (fs st) destination_path) →
       lstat (fs st) (resolve (fs st) destination_path ++ [n])
         ≠ Some (Plain Directory).
Proof.
  intros Hp Hd H.
  unfold purge_destination, bind, get_env, get_fs in H.
  rewrite Hp, glob_star in H by done.
  by apply (purge_loop_no_directory _ _ _ _ H).
Qed.

Lemma assoc_filter_out {V} (k : list string) (ks : list (list string))
    (l : list (list string * V)) :
  k ∈ ks → assoc k (filter (λ e, e.1 ∉ ks) l) = None.
Proof.
  intros Hk. induction l as [|[k' v] l IH]; [done|].
  destruct (decide (k' ∈ ks)) as [Hin|Hout].
  - by rewrite filter_cons_False by (simpl; by intros ?).
  - rewrite filter_cons_True by done. simpl.
    rewrite decide_False; [done|]. by intros ->.
Qed.

(** C9, as the code has it.  The purge lists the destination with
    [glob("*")], which in [pathlib] yields the names that begin with a dot
    like all the others; when the purge runs to its end, every entry that was
    directly inside the destination, hidden or not, is gone. *)
Theorem purge_spares_no_hidden_entry destination_path st st' :
  truthy (env_get (env st) "purge_destination" VNone) = true →
  is_dir (fs st) destination_path = true →
  purge_destination destination_path st = Ok () st' →
  ∀ n, n ∈ listdir (fs st) (resolve (fs st) destination_path) →
       lstat (fs st') (resolve (fs st') destination_path ++ [n]) = None.
Proof.
  intros Hp Hd H n Hn.
  unfold purge_destination, bind, get_env, get_fs in H.
  rewrite Hp, glob_star in H by done.
  apply purge_loop_ok in H as [Hc He].
  assert (resolve (fs st') destination_path = resolve (fs st) destination_path)
    as -> by (unfold resolve; by rewrite Hc).
  unfold lstat. rewrite decide_False by (by destruct (resolve _ _)).
  rewrite He. apply assoc_filter_out.
  apply list_elem_of_fmap. by exists n.
Qed.

End Purge.

Lemma purge_spares_no_hidden_entry_witness :
  let st := Scenario.hidden_in_destination in
  let d := parse "/cache/App" in
  let st' := final_state (purge_destination d st) in
  (".hidden" ∈ listdir (fs st) (resolve (fs st) d) ∧
   lstat (fs st) (resolve (fs st) d ++ [".hidden"]) = Some (Plain Regular)) ∧
  lstat (fs st') (resolve (fs st') d ++ [".hidden"]) = None.
Proof.
  intros st d st'.
  assert (".hidden" ∈ listdir (fs st) (resolve (fs st) d)) as Hn
    by (vm_compute; left).
  split; [split; [exact Hn|reflexivity]|].
  apply (purge_spares_no_hidden_entry d st st'); try reflexivity.
  exact Hn.
Defined.

(** C9 as the claim has it fails: a hidden file in the destination is
    listed by the purge and deleted with the rest. *)
Lemma hidden_entry_counterexample :
  let st := Scenario.hidden_in_destination in
  let r := main (Sample.unpack []) Sample.re_match st in
  truthy (env_get (env st) "purge_destination" VNone) = true ∧
  Str.startswith ".hidden" "." = true ∧
  parse "/cache/App/.hidden" ∈ glob (fs st) (parse "/cache/App") "*" ∧
  lstat (fs st) ["cache"; "App"; ".hidden"] = Some (Plain Regular) ∧
  r = Ok () (final_state r) ∧
  lstat (fs (final_state r)) ["cache"; "App"; ".hidden"] = None.
Proof.
  intros st r. repeat split; try (vm_compute; reflexivity).
  vm_compute. left.
Qed.

(** C1.  On a destination that holds a regular file and a subdirectory the
    purge does not remove both: the file, listed first, is unlinked, and at
    the subdirectory line 117 raises [NameError], which leaves [main] as it
    is, not as a [ProcessorError]; the subdirectory and its content stay, and
    nothing is extracted. *)
Theorem purge_stops_at_subdirectory :
  let st := Scenario.file_and_subdirectory in
  let r := main (Sample.unpack ["README"]) Sample.re_match st in
  glob (fs st) (parse "/cache/App") "*"
    = [parse "/cache/App/old.txt"; parse "/cache/App/sub"] ∧
  r = Raise (Other (NameError "path")) (final_state r) ∧
  lstat (fs (final_state r)) ["cache"; "App"; "old.txt"] = None ∧
  lstat (fs (final_state r)) ["cache"; "App"; "sub"] = Some (Plain Directory) ∧
  lstat (fs (final_state r)) ["cache"; "App"; "sub"; "inner.txt"]
    = Some (Plain Regular) ∧
  trace (final_state r) = [].
Proof. intros st r. repeat split; vm_compute; reflexivity. Qed.

(** ** The renaming (C2, C7) *)

Section Canonical.

Lemma split_no_sep c s : Str.contains c s = false → Str.split c s = [s].
Proof.
  induction s as [|a s IH]; [done|]. simpl.
  intros [Ha Hs]%orb_false_iff. apply bool_decide_eq_false in Ha.
  rewrite decide_False by done. by rewrite IH.
Qed.

(** The first field of [split]: the text before the first separator. *)
Lemma split_head c s :
  ∃ stem, head (Str.split c s) = Some stem ∧ Str.contains c stem = false ∧
          (s = stem ∨ ∃ rest, s = stem +:+ String c rest).
Proof.
  induction s as [|a s (stem & Hh & Hc & Hs)]; simpl.
  - exists "". eauto.
  - destruct (decide (a = c)) as [->|Hne].
    + exists "". simpl. split; [done|]. split; [done|]. right. by exists s.
    + destruct (Str.split c s) as [|w ws]; [done|]. simpl in Hh.
      injection Hh as ->. exists (String a stem). simpl.
      split; [done|]. split.
      * by rewrite bool_decide_eq_false_2.
      * destruct Hs as [->|[rest ->]]; [by left|right]. by exists rest.
Qed.

Lemma parse_component s :
  Str.contains "/" s = false → s ≠ "" → s ≠ "." →
  parse s = mkPath NoRoot [s].
Proof.
  intros Hs H1 H2. unfold parse.
  assert (splitroot s = (NoRoot, s)) as ->.
  { destruct s as [|a s]; [done|]. simpl in Hs.
    apply orb_false_iff in Hs as [Ha _]. apply bool_decide_eq_false in Ha.
    unfold splitroot.
    repeat (case_match; try done); by simplify_eq. }
  rewrite split_no_sep by done.
  by rewrite filter_cons_True, filter_nil.
Qed.

(** For an absolute path the new path is the parent joined with the text
    of the name before its first [?], as long as that text can be a
    component. *)
Lemma new_pathname_of_absolute p stem :
  is_absolute p = true →
  head (Str.split "?" (name p)) = Some stem →
  Str.contains "/" stem = false → stem ≠ "" → stem ≠ "." →
  new_pathname_of p = child (parent p) stem.
Proof.
  intros Ha Hh H1 H2 H3. unfold new_pathname_of. rewrite Hh. simpl.
  rewrite parse_component by done.
  unfold join, is_absolute in *. simpl. by rewrite Ha.
Qed.

(** For an absolute path whose name holds no [?], the new path is the path
    itself. *)
Lemma new_pathname_of_plain p :
  is_absolute p = true →
  Str.contains "?" (name p) = false →
  Str.contains "/" (name p) = false → name p ≠ "" → name p ≠ "." →
  new_pathname_of p = p.
Proof.
  intros Ha Hq H1 H2 H3.
  rewrite (new_pathname_of_absolute p (name p)); try done.
  - destruct p as [r t]. unfold child, parent, name in *. simpl in *.
    f_equal. destruct t as [|n t _] using rev_ind; [done|].
    by rewrite last_snoc, removelast_last.
  - by rewrite split_no_sep.
Qed.

(** For a relative path the parent and the shortened name are appended to
    the whole path. *)
Lemma new_pathname_of_relative p stem :
  is_absolute p = false →
  head (Str.split "?" (name p)) = Some stem →
  Str.contains "/" stem = false → stem ≠ "" → stem ≠ "." →
  new_pathname_of p = mkPath NoRoot (tail p ++ removelast (tail p) ++ [stem]).
Proof.
  intros Ha Hh H1 H2 H3. unfold new_pathname_of. rewrite Hh. simpl.
  rewrite parse_component by done.
  unfold join, is_absolute in *. simpl. rewrite Ha. simpl.
  apply bool_decide_eq_false in Ha.
  destruct (root p) eqn:Hr; [|by destruct Ha..].
  by rewrite <- (assoc_L (++)).
Qed.

(** So the new path of a relative path is never in the directory of the
    source, and never the source itself. *)
Lemma new_pathname_of_relative_parent p stem :
  is_absolute p = false → tail p ≠ [] →
  head (Str.split "?" (name p)) = Some stem →
  Str.contains "/" stem = false → stem ≠ "" → stem ≠ "." →
  parent (new_pathname_of p) ≠ parent p ∧ new_pathname_of p ≠ p.
Proof.
  intros Ha Ht Hh H1 H2 H3.
  rewrite (new_pathname_of_relative p stem) by done.
  destruct p as [r t]. unfold parent. simpl in *.
  split; intros Heq; injection Heq as _ Heq;
    apply (f_equal length) in Heq;
    rewrite ?(assoc_L (++)), ?removelast_last, ?length_app in Heq;
    simpl in Heq; destruct t; [done|simpl in Heq; lia|done|simpl in Heq; lia].
Qed.

End Canonical.

(** C7.  For a relative source path the computed path is not the source
    path: [joinpath] appends the (relative) parent and the name to the
    whole source path.  The renaming then fails, and [main] with it, the
    file being left where it was. *)
Theorem relative_plain_name_is_not_kept :
  let st := Scenario.relative_download in
  let p := parse "downloads/app.zip" in
  let r := main (Sample.unpack ["README"]) Sample.re_match st in
  (exists_ (fs st) p = true ∧ Str.contains "?" (name p) = false) ∧
  new_pathname_of p = parse "downloads/app.zip/downloads/app.zip" ∧
  new_pathname_of p ≠ p ∧
  r = Raise (Processor (FromException (OSError ENOTDIR))) (final_state r) ∧
  lstat (fs (final_state r)) ["home"; "user"; "downloads"; "app.zip"]
    = Some (Plain Regular) ∧
  trace (final_state r) = [].
Proof. intros st p r. repeat split; try (vm_compute; reflexivity). discriminate. Qed.

(** C2.  For a relative source path whose name holds a [?], the computed
    path does not lie in the directory of the source: it is the source path
    itself, followed by the parent and the shortened name.  The renaming
    fails, and [main] with it; the file keeps its name. *)
Theorem relative_signed_name_is_not_renamed :
  let st := Scenario.relative_signed_download in
  let p := parse "downloads/app.dmg?sig=abc" in
  let r := main (Sample.unpack ["README"]) Sample.re_match st in
  (exists_ (fs st) p = true ∧ Str.contains "?" (name p) = true) ∧
  new_pathname_of p = parse "downloads/app.dmg?sig=abc/downloads/app.dmg" ∧
  parent (new_pathname_of p) ≠ parent p ∧
  r = Raise (Processor (FromException (OSError ENOTDIR))) (final_state r) ∧
  lstat (fs (final_state r)) ["home"; "user"; "downloads"; "app.dmg?sig=abc"]
    = Some (Plain Regular) ∧
  lstat (fs (final_state r)) ["home"; "user"; "downloads"; "app.dmg"] = None.
Proof. intros st p r. repeat split; try (vm_compute; reflexivity). discriminate. Qed.

(** * Further properties of [main] *)

(** ** Taking a run apart *)

Section Inversion.

Lemma bind_ok {A B} (m : M A) (f : A → M B) st b st' :
  bind m f st = Ok b st' → ∃ a st1, m st = Ok a st1 ∧ f a st1 = Ok b st'.
Proof. unfold bind. destruct (m st) as [a st1|]; [eauto|done]. Qed.

Lemma bind_raise {A B} (m : M A) (f : A → M B) st e st' :
  bind m f st = Raise e st' →
  m st = Raise e st' ∨ ∃ a st1, m st = Ok a st1 ∧ f a st1 = Raise e st'.
Proof.
  unfold bind. destruct (m st) as [a st1|]; intros H; [right; eauto|].
  injection H as -> ->. by left.
Qed.

Lemma except_wrap_ok {A} (m : M A) st a st' :
  except_wrap m st = Ok a st' → m st = Ok a st'.
Proof. unfold except_wrap. by destruct (m st) as [|[]]. Qed.

Lemma except_wrap_raise {A} (m : M A) st e st' :
  except_wrap m st = Raise e st' → ∃ e0, m st = Raise e0 st' ∧ e = wrapped e0.
Proof.
  unfold except_wrap. destruct (m st) as [|[pe|ex] st1]; [done|..];
    intros [= <- <-]; eauto.
Qed.

Lemma check_found_ok pathname st st' :
  check_found pathname st = Ok () st' →
  dmg_path_set st ∧
  st' = mkState (env st) (fs st)
          (trace st ++ [Output ("Found DMG "
             +:+ py_str (env_get (env st) "dmg_path" VNone)
             +:+ " in file " +:+ str pathname)]).
Proof.
  intros H. destruct (decide (dmg_path_set st)) as [Hs|Hs].
  - rewrite check_found_set in H by done. by injection H as <-.
  - by rewrite check_found_unset in H.
Qed.

Lemma check_found_raise pathname st e st' :
  check_found pathname st = Raise e st' →
  ¬ dmg_path_set st ∧ e = Processor NoDmgLocated ∧ st' = st.
Proof.
  intros H. destruct (decide (dmg_path_set st)) as [Hs|Hs].
  - by rewrite check_found_set in H.
  - rewrite check_found_unset in H by done. by injection H as <- <-.
Qed.

End Inversion.

(** ** The inputs, once more *)

Section InputEdges.

Variable _extract :
  gmap string pyval → string → string → string → FS → FS * extract_outcome.
Variable re_match : string → string → option bool.

(** An [archive_path] in the environment decides alone: when it is empty
    (or [None], or [False]) the run fails for want of a source even though
    [pathname] may hold a good one, and when it is a string the source is
    that string's path. *)
Theorem archive_path_shadows_pathname st v :
  env st !! "archive_path" = Some v →
  (truthy v = false →
   main _extract re_match st = Raise (Processor ExpectedPathname) st) ∧
  (∀ p d st', resolve_inputs st = Ok (p, d) st' →
              ∃ s, v = VStr s ∧ s ≠ "" ∧ p = parse s).
Proof.
  intros Ha. split.
  - intros Hv. apply main_resolve_raise.
    unfold resolve_inputs, bind, get_env, env_get. rewrite Ha. simpl.
    by rewrite Hv.
  - intros p d st' H.
    unfold resolve_inputs, bind, get_env, env_get in H. rewrite Ha in H.
    simpl in H. destruct (truthy v) eqn:Hv; [|done]. simpl in H.
    destruct (Path_of v st) as [p0 st0|] eqn:Hp; [|done].
    apply Path_of_ok in Hp as (s & -> & -> & ->).
    exists s. split; [done|]. split.
    + intros ->. by simpl in Hv.
    + repeat (case_match; simplify_eq/=; try done).
      all: unfold bind in *; repeat (case_match; simplify_eq/=; try done).
      all: unfold ret in *; by simplify_eq.
Qed.

(** The default destination is built before [destination_path] is looked
    up: with a source that exists, a missing [RECIPE_CACHE_DIR] or [NAME]
    ends the run with a [KeyError], which is no [ProcessorError], whatever
    [destination_path] holds; nothing has been touched by then. *)
Theorem missing_cache_keys_raise_KeyError st s :
  env_get (env st) "archive_path" (env_get (env st) "pathname" VNone) = VStr s →
  s ≠ "" → exists_ (fs st) (parse s) = true →
  (env st !! "RECIPE_CACHE_DIR" = None →
   main _extract re_match st = Raise (Other (KeyError "RECIPE_CACHE_DIR")) st) ∧
  (is_Some (env st !! "RECIPE_CACHE_DIR") → env st !! "NAME" = None →
   main _extract re_match st = Raise (Other (KeyError "NAME")) st).
Proof.
  intros Hs Hne Hex.
  assert (∀ e, (let* cache := env_item "RECIPE_CACHE_DIR" in
                let* name := env_item "NAME" in
                let* cache := Path_of cache in
                let* name := Path_of name in
                let* destination_path :=
                  match env st !! "destination_path" with
                  | Some v => Path_of v
                  | None => ret (join cache name)
                  end in
                ret (parse s, destination_path)) st = Raise e st →
              main _extract re_match st = Raise e st) as Hmain.
  { intros e He. apply main_resolve_raise.
    unfold resolve_inputs, bind at 1, get_env. rewrite Hs. simpl.
    rewrite bool_decide_eq_false_2 by done. simpl.
    unfold bind at 1, ret. unfold bind at 1, get_fs. by rewrite Hex. }
  split.
  - intros Hc. apply Hmain.
    unfold bind at 1, env_item, bind, get_env. by rewrite Hc.
  - intros [c Hc] Hn. apply Hmain.
    unfold bind at 1, env_item, bind, get_env. rewrite Hc. simpl.
    by rewrite Hn.
Qed.

End InputEdges.

Lemma archive_path_shadows_pathname_witness :
  let run := main (Sample.unpack []) Sample.re_match in
  (env Cases.empty_archive_path !! "archive_path" = Some (VStr "") ∧
   env Cases.empty_archive_path !! "pathname" = Some (VStr "/dl/bundle.zip") ∧
   exists_ (fs Cases.empty_archive_path) (parse "/dl/bundle.zip") = true) ∧
  run Cases.empty_archive_path =
    Raise (Processor ExpectedPathname) Cases.empty_archive_path.
Proof.
  intros run. split; [by repeat split|].
  apply (proj1 (archive_path_shadows_pathname (Sample.unpack []) Sample.re_match
                  Cases.empty_archive_path (VStr "") eq_refl)).
  reflexivity.
Defined.

Lemma missing_cache_keys_raise_KeyError_witness :
  let run := main (Sample.unpack []) Sample.re_match in
  (env Cases.no_cache_dir !! "destination_path" = Some (VStr "/cache/out") ∧
   env Cases.no_recipe_name !! "destination_path" = Some (VStr "/cache/out")) ∧
  run Cases.no_cache_dir =
    Raise (Other (KeyError "RECIPE_CACHE_DIR")) Cases.no_cache_dir ∧
  run Cases.no_recipe_name =
    Raise (Other (KeyError "NAME")) Cases.no_recipe_name.
Proof.
  intros run. split; [by split|]. split.
  - apply (proj1 (missing_cache_keys_raise_KeyError
                    (Sample.unpack []) Sample.re_match
                    Cases.no_cache_dir "/dl/bundle.zip"
                    eq_refl ltac:(discriminate) eq_refl)).
    reflexivity.
  - apply (proj2 (missing_cache_keys_raise_KeyError
                    (Sample.unpack []) Sample.re_match
                    Cases.no_recipe_name "/dl/bundle.zip"
                    eq_refl ltac:(discriminate) eq_refl)).
    + by eexists.
    + reflexivity.
Defined.

(** ** What a run leaves behind *)

Global Instance keeps_key_fs k v : FsStable (keeps_key k v).
Proof. by intros st fs'. Qed.
Global Instance keeps_key_tr k v : TraceStable (keeps_key k v).
Proof. by intros st t'. Qed.
Global Instance any_state_fs : FsStable any_state.
Proof. by intros st fs'. Qed.
Global Instance any_state_tr : TraceStable any_state.
Proof. by intros st t'. Qed.

Section Outcomes.

Variable _extract :
  gmap string pyval → string → string → string → FS → FS * extract_outcome.
Variable re_match : string → string → option bool.

(** The three ways the search loop ends. *)
Lemma locate_loop_cases file_regex files st :
  locate_loop re_match file_regex files st = Ok () st ∨
  (∃ f, f ∈ files ∧ re_match file_regex (name f) = Some true ∧
        locate_loop re_match file_regex files st =
          Ok () (mkState (<["dmg_path" := VStr (str f)]> (env st))
                         (fs st) (trace st))) ∨
  locate_loop re_match file_regex files st =
    Raise (Other (ReError file_regex)) st.
Proof.
  induction files as [|f files IH]; simpl; [by left|].
  destruct (re_match file_regex (name f)) as [[]|] eqn:Hf.
  - right; left. exists f. split; [left|done].
  - destruct IH as [?|[(g & ? & ? & ?)|?]]; [by left| |by right; right].
    right; left. exists g. split; [by right|done].
  - by right; right.
Qed.

(** The ways the locator ends: nothing found, the first match recorded, or
    an exception in a state that is the one it started in. *)
Lemma locate_dmg_cases d st :
  locate_dmg re_match d st = Ok () st ∨
  (∃ f file_regex,
      f ∈ glob (fs st) d "*.dmg" ∧ re_match file_regex (name f) = Some true ∧
      locate_dmg re_match d st =
        Ok () (mkState (<["dmg_path" := VStr (str f)]> (env st))
                       (fs st) (trace st))) ∨
  ∃ ex, locate_dmg re_match d st = Raise (Other ex) st.
Proof.
  unfold locate_dmg, env_item, bind, get_env, get_fs.
  destruct (env st !! "NAME") as [recipe_name|]; [|right; right; by eexists].
  simpl.
  destruct (locate_loop_cases (py_str recipe_name +:+ ".*\.dmg")
              (glob (fs st) d "*.dmg") st) as [?|[(f & ? & ? & ?)|?]].
  - by left.
  - right; left. by exists f, (py_str recipe_name +:+ ".*\.dmg").
  - right; right. by eexists.
Qed.

(** What the unpacking leaves when it succeeds: the file system of the
    extractor, and four more events in the trace. *)
Lemma unarchive_ok np d st2 st3 :
  unarchive _extract np d st2 = Ok () st3 →
  ∃ file_fmt,
    file_fmt ∈ EXTNS.*1 ∧
    _extract (env st2) file_fmt (str np) (str d) (fs st2) = (fs st3, Extracted) ∧
    env st3 = env st2 ∧
    trace st3 = trace st2 ++
      [ GetArchiveFormat (str np);
        Output ("Guessed archive format '" +:+ file_fmt +:+ "' from filename '"
                +:+ name np +:+ "'");
        Extract file_fmt (str np) (str d);
        Output ("Unarchived '" +:+ str np +:+ "' to '" +:+ str d +:+ "'") ].
Proof.
  unfold unarchive, detect, bind, emit, ret, output, emit, raise.
  destruct (get_archive_format (str np)) as [[|a fmt]|]; [done| |done].
  simpl. destruct (bool_decide (String a fmt ∈ _)) eqn:Hin; simpl; [|done].
  unfold extract. simpl.
  destruct (_extract _ _ _ _ _) as [fs' []] eqn:He; [|done..].
  intros [= <-]. exists (String a fmt). simpl.
  split; [by apply bool_decide_eq_true in Hin|].
  split; [done|]. split; [done|]. by rewrite <- !(assoc_L (++)).
Qed.

End Outcomes.

Section Runs.

Variable _extract :
  gmap string pyval → string → string → string → FS → FS * extract_outcome.
Variable re_match : string → string → option bool.

(** A successful run, step by step. *)
Lemma main_ok_steps st p d st1 st' :
  prepare st = Ok (p, d) st1 →
  main _extract re_match st = Ok () st' →
  let np := new_pathname_of p in
  ∃ st2 st4,
    canonicalize p st1 = Ok np st2 ∧
    (if bool_decide (suffix np = ".dmg")
     then set_env "dmg_path" (VStr (str np))
     else unarchive _extract np d >> locate_dmg re_match d) st2 = Ok () st4 ∧
    check_found p st4 = Ok () st'.
Proof.
  intros H1 H np. unfold main, bind at 1 in H. rewrite H1 in H.
  apply except_wrap_ok, bind_ok in H as (np' & st2 & H2 & H).
  pose proof (canonicalize_frame _ _ _ _ H2) as [-> _].
  apply bind_ok in H as ([] & st4 & H3 & H4). by exists st2, st4.
Qed.

Lemma main_prepare_ok st st' :
  main _extract re_match st = Ok () st' →
  ∃ p d st1, prepare st = Ok (p, d) st1.
Proof.
  intros H. unfold main in H. apply bind_ok in H as ([p d] & st1 & H & _).
  by exists p, d, st1.
Qed.

(** How the step between the renaming and the final check succeeds. *)
Lemma branch_ok np d st2 st4 :
  (if bool_decide (suffix np = ".dmg")
   then set_env "dmg_path" (VStr (str np))
   else unarchive _extract np d >> locate_dmg re_match d) st2 = Ok () st4 →
  (suffix np = ".dmg" ∧
   st4 = mkState (<["dmg_path" := VStr (str np)]> (env st2)) (fs st2) (trace st2))
  ∨
  (suffix np ≠ ".dmg" ∧
   ∃ st3, unarchive _extract np d st2 = Ok () st3 ∧
     (st4 = st3 ∨
      ∃ f file_regex,
        f ∈ glob (fs st3) d "*.dmg" ∧
        re_match file_regex (name f) = Some true ∧
        st4 = mkState (<["dmg_path" := VStr (str f)]> (env st3))
                      (fs st3) (trace st3))).
Proof.
  destruct (bool_decide (suffix np = ".dmg")) eqn:Hs.
  - apply bool_decide_eq_true in Hs. intros [= <-]. by left.
  - apply bool_decide_eq_false in Hs. intros H. right. split; [done|].
    apply bind_ok in H as ([] & st3 & H3 & H). exists st3. split; [done|].
    destruct (locate_dmg_cases re_match d st3)
      as [Hl|[(f & rx & Hf & Hm & Hl)|[ex Hl]]];
      rewrite Hl in H; [left|right|done]; injection H as <-; [done|].
    by exists f, rx.
Qed.

(** When that step fails, the environment is the one it started with. *)
Lemma branch_raise np d st2 e st' :
  (if bool_decide (suffix np = ".dmg")
   then set_env "dmg_path" (VStr (str np))
   else unarchive _extract np d >> locate_dmg re_match d) st2 = Raise e st' →
  env st' = env st2.
Proof.
  destruct (bool_decide (suffix np = ".dmg")); [done|]. intros H.
  apply bind_raise in H as [H|([] & st3 & H3 & H)].
  - by destruct (inv_raised _ _ _ _ (unarchive_inv _extract st2 np d) eq_refl H).
  - apply unarchive_frame in H3.
    destruct (locate_dmg_cases re_match d st3)
      as [Hl|[(f & rx & Hf & Hm & Hl)|[ex Hl]]];
      rewrite Hl in H; [done..|]. by injection H as _ <-.
Qed.

(** After that step has succeeded on an environment without a true
    [dmg_path], there is one, and it is a non-empty string. *)
Lemma branch_ok_env np d st2 st4 :
  (if bool_decide (suffix np = ".dmg")
   then set_env "dmg_path" (VStr (str np))
   else unarchive _extract np d >> locate_dmg re_match d) st2 = Ok () st4 →
  env st4 = env st2 ∨
  ∃ s, s ≠ "" ∧ env st4 = <["dmg_path" := VStr s]> (env st2).
Proof.
  intros [[Hs ->]|(Hs & st3 & H3 & [->|(f & rx & Hf & _ & ->)])]%branch_ok.
  - right. exists (str np). split; [by apply dmg_suffix_str_nonempty|done].
  - left. by eapply unarchive_frame.
  - right. exists (str f). split; [by eapply glob_dmg_str|].
    simpl. by rewrite (unarchive_frame _ _ _ _ _ H3).
Qed.

(** A run that succeeds leaves a true [dmg_path] in the environment, and
    the last thing it does is report it. *)
Theorem success_reports_a_dmg_path st st' :
  main _extract re_match st = Ok () st' →
  dmg_path_set st' ∧
  ∃ pathname,
    last (trace st') =
      Some (Output ("Found DMG " +:+ py_str (env_get (env st') "dmg_path" VNone)
                    +:+ " in file " +:+ str pathname)).
Proof.
  intros H. destruct (main_prepare_ok _ _ H) as (p & d & st1 & H1).
  destruct (main_ok_steps _ _ _ _ _ H1 H) as (st2 & st4 & _ & _ & H4).
  apply check_found_ok in H4 as [Hset ->]. split; [done|].
  exists p. simpl. by rewrite last_snoc.
Qed.

(** A run that succeeds has written no key of the environment but
    [dmg_path]. *)
Theorem success_writes_only_dmg_path st st' k :
  k ≠ "dmg_path" →
  main _extract re_match st = Ok () st' →
  env st' !! k = env st !! k.
Proof.
  intros Hk H. destruct (main_prepare_ok _ _ H) as (p & d & st1 & H1).
  destruct (main_ok_steps _ _ _ _ _ H1 H) as (st2 & st4 & H2 & H3 & H4).
  apply check_found_ok in H4 as [_ ->]. simpl.
  destruct (prepare_frame _ _ _ _ H1) as [He1 _].
  destruct (canonicalize_frame _ _ _ _ H2) as (_ & He2 & _).
  destruct (branch_ok_env _ _ _ _ H3) as [->|(s & _ & ->)].
  - by rewrite He2, He1.
  - rewrite lookup_insert_ne by done. by rewrite He2, He1.
Qed.

(** A run that fails leaves the environment as it found it: [dmg_path] is
    written only on the way to success. *)
Theorem failure_keeps_the_environment st e st' :
  main _extract re_match st = Raise e st' → env st' = env st.
Proof.
  intros H. unfold main in H.
  apply bind_raise in H as [H|([p d] & st1 & H1 & H)].
  { by destruct (inv_raised _ _ _ _ (prepare_inv st) (conj eq_refl eq_refl) H)
      as [[? _] _]. }
  destruct (prepare_frame _ _ _ _ H1) as [He1 _].
  apply except_wrap_raise in H as (e0 & H & _).
  apply bind_raise in H as [H|(np & st2 & H2 & H)].
  { destruct (inv_raised _ _ _ _ (canonicalize_inv st1 p)
                (conj eq_refl eq_refl) H) as [[? _] _]. congruence. }
  destruct (canonicalize_frame _ _ _ _ H2) as (_ & He2 & _).
  apply bind_raise in H as [H|([] & st4 & H3 & H)].
  { apply branch_raise in H. congruence. }
  apply check_found_raise in H as (Hunset & _ & ->).
  destruct (branch_ok_env _ _ _ _ H3) as [Heq|(s & Hs & Heq)]; [congruence|].
  exfalso. apply Hunset. unfold dmg_path_set, env_get.
  rewrite Heq, lookup_insert_eq. simpl. by rewrite bool_decide_eq_false_2.
Qed.


End Runs.

Lemma success_reports_a_dmg_path_witness :
  let r := main (Sample.unpack Scenario.images) Sample.re_match
                Scenario.tgz_download in
  r = Ok () (final_state r) ∧
  dmg_path_set (final_state r) ∧
  ∃ pathname,
    last (trace (final_state r)) =
      Some (Output ("Found DMG "
                    +:+ py_str (env_get (env (final_state r)) "dmg_path" VNone)
                    +:+ " in file " +:+ str pathname)).
Proof.
  intros r.
  assert (r = Ok () (final_state r)) as H by (vm_compute; reflexivity).
  split; [exact H|].
  exact (success_reports_a_dmg_path _ _ _ _ H).
Defined.

Lemma success_writes_only_dmg_path_witness :
  let r := main (Sample.unpack Scenario.images) Sample.re_match
                Scenario.tgz_download in
  r = Ok () (final_state r) ∧
  env (final_state r) !! "NAME" = env Scenario.tgz_download !! "NAME".
Proof.
  intros r.
  assert (r = Ok () (final_state r)) as H by (vm_compute; reflexivity).
  split; [exact H|].
  exact (success_writes_only_dmg_path _ _ _ _ "NAME" ltac:(discriminate) H).
Defined.

Lemma failure_keeps_the_environment_witness :
  let r := main (Sample.unpack ["README"]) Sample.re_match
                Scenario.zip_download in
  r = Raise (Processor NoDmgLocated) (final_state r) ∧
  env (final_state r) = env Scenario.zip_download.
Proof.
  intros r.
  assert (r = Raise (Processor NoDmgLocated) (final_state r)) as H
    by (vm_compute; reflexivity).
  split; [exact H|].
  exact (failure_keeps_the_environment _ _ _ _ _ H).
Defined.


(** ** The run of an archive *)

Section ArchiveRun.

Variable _extract :
  gmap string pyval → string → string → string → FS → FS * extract_outcome.
Variable re_match : string → string → option bool.

(** When a source that is no disk image is processed with success, the
    extractor has been called once, after the format was asked for, with a
    format of [EXTNS], the renamed file and the destination; the file system
    at the end is the one the extractor left. *)
Theorem archive_is_extracted_once st p d st1 st' :
  prepare st = Ok (p, d) st1 →
  suffix (new_pathname_of p) ≠ ".dmg" →
  main _extract re_match st = Ok () st' →
  let np := new_pathname_of p in
  ∃ file_fmt st2,
    canonicalize p st1 = Ok np st2 ∧
    file_fmt ∈ EXTNS.*1 ∧
    _extract (env st) file_fmt (str np) (str d) (fs st2) = (fs st', Extracted) ∧
    trace st' = trace st ++
      [ GetArchiveFormat (str np);
        Output ("Guessed archive format '" +:+ file_fmt +:+ "' from filename '"
                +:+ name np +:+ "'");
        Extract file_fmt (str np) (str d);
        Output ("Unarchived '" +:+ str np +:+ "' to '" +:+ str d +:+ "'");
        Output ("Found DMG " +:+ py_str (env_get (env st') "dmg_path" VNone)
                +:+ " in file " +:+ str p) ].
Proof.
  intros H1 Hs H np.
  destruct (main_ok_steps _ _ _ _ _ _ _ H1 H) as (st2 & st4 & H2 & H3 & H4).
  destruct (prepare_frame _ _ _ _ H1) as [He1 Ht1].
  destruct (canonicalize_frame _ _ _ _ H2) as (_ & He2 & Ht2).
  apply check_found_ok in H4 as [_ ->]. simpl.
  apply branch_ok in H3 as [[? _]|(_ & st3 & H3 & Hst4)]; [done|].
  apply unarchive_ok in H3 as (file_fmt & Hin & Hx & He3 & Ht3).
  exists file_fmt, st2. split; [done|]. split; [done|].
  rewrite He2, He1 in Hx. rewrite Ht2, Ht1 in Ht3.
  destruct Hst4 as [->|(f & rx & _ & _ & ->)]; simpl;
    (split; [done|]); rewrite Ht3, <- (assoc_L (++)); done.
Qed.

(** When a source that is no disk image is processed with success and the
    environment held no true [dmg_path] before, the result is a child of the
    destination, listed there at the end, with a name ending in [.dmg]. *)
Theorem located_image_is_a_child st p d st1 st' :
  prepare st = Ok (p, d) st1 →
  suffix (new_pathname_of p) ≠ ".dmg" →
  ¬ dmg_path_set st →
  main _extract re_match st = Ok () st' →
  ∃ n,
    n ∈ listdir (fs st') (resolve (fs st') d) ∧
    Str.endswith n ".dmg" = true ∧
    env st' !! "dmg_path" = Some (VStr (str (child d n))).
Proof.
  intros H1 Hs Hunset H.
  destruct (main_ok_steps _ _ _ _ _ _ _ H1 H) as (st2 & st4 & H2 & H3 & H4).
  destruct (prepare_frame _ _ _ _ H1) as [He1 _].
  destruct (canonicalize_frame _ _ _ _ H2) as (_ & He2 & _).
  apply check_found_ok in H4 as [Hset ->]. simpl.
  apply branch_ok in H3 as [[? _]|(_ & st3 & H3 & Hst4)]; [done|].
  apply unarchive_frame in H3.
  destruct Hst4 as [->|(f & rx & Hf & _ & ->)].
  - exfalso. apply Hunset. unfold dmg_path_set in *. congruence.
  - simpl. unfold glob in Hf.
    destruct (is_dir (fs st3) d); [|by apply elem_of_nil in Hf].
    apply list_elem_of_fmap in Hf as (n & -> & [Hn Hl]%list_elem_of_filter).
    exists n. split; [done|]. split; [by apply Is_true_true|].
    by rewrite lookup_insert_eq.
Qed.

End ArchiveRun.

Lemma archive_is_extracted_once_witness :
  let st := Scenario.tgz_download in
  let p := parse "/dl/bundle.tar.gz?token=xyz" in
  let d := parse "/cache/MyRecipeName" in
  let r := main (Sample.unpack Scenario.images) Sample.re_match st in
  (prepare st = Ok (p, d) (final_state (prepare st)) ∧
   suffix (new_pathname_of p) ≠ ".dmg" ∧ r = Ok () (final_state r)) ∧
  ∃ file_fmt,
    file_fmt ∈ EXTNS.*1 ∧
    (trace (final_state r)) !! 2
      = Some (Extract file_fmt "/dl/bundle.tar.gz" "/cache/MyRecipeName") ∧
    length (trace (final_state r)) = 5.
Proof.
  intros st p d r.
  assert (prepare st = Ok (p, d) (final_state (prepare st))) as H1
    by (vm_compute; reflexivity).
  assert (suffix (new_pathname_of p) ≠ ".dmg") as Hs by (vm_compute; discriminate).
  assert (r = Ok () (final_state r)) as H by (vm_compute; reflexivity).
  split; [done|].
  destruct (archive_is_extracted_once _ _ _ _ _ _ _ H1 Hs H)
    as (file_fmt & st2 & _ & Hin & _ & Ht).
  exists file_fmt. split; [done|]. by rewrite Ht.
Defined.

Lemma located_image_is_a_child_witness :
  let st := Scenario.tgz_download in
  let p := parse "/dl/bundle.tar.gz?token=xyz" in
  let d := parse "/cache/MyRecipeName" in
  let r := main (Sample.unpack Scenario.images) Sample.re_match st in
  (prepare st = Ok (p, d) (final_state (prepare st)) ∧
   suffix (new_pathname_of p) ≠ ".dmg" ∧ ¬ dmg_path_set st ∧
   r = Ok () (final_state r)) ∧
  ∃ n,
    n ∈ listdir (fs (final_state r)) (resolve (fs (final_state r)) d) ∧
    Str.endswith n ".dmg" = true ∧
    env (final_state r) !! "dmg_path" = Some (VStr (str (child d n))).
Proof.
  intros st p d r.
  assert (prepare st = Ok (p, d) (final_state (prepare st))) as H1
    by (vm_compute; reflexivity).
  assert (suffix (new_pathname_of p) ≠ ".dmg") as Hs by (vm_compute; discriminate).
  assert (¬ dmg_path_set st) as Hu by (vm_compute; discriminate).
  assert (r = Ok () (final_state r)) as H by (vm_compute; reflexivity).
  split; [done|].
  exact (located_image_is_a_child _ _ _ _ _ _ _ H1 Hs Hu H).
Defined.

(** ** The destination *)

Section Destination.

Lemma assoc_app_None {V} (k : list string) (l l' : list (list string * V)) :
  assoc k l = None → assoc k (l ++ l') = assoc k l'.
Proof.
  induction l as [|[k0 v] l IH]; [done|]. simpl.
  destruct (decide (k0 = k)); [done|]. apply IH.
Qed.

Lemma assoc_app_Some {V} (k : list string) (l l' : list (list string * V)) v :
  assoc k l = Some v → assoc k (l ++ l') = Some v.
Proof.
  induction l as [|[k0 v0] l IH]; [done|]. simpl.
  destruct (decide (k0 = k)); [done|]. apply IH.
Qed.

Lemma assoc_elem_of {V} (k : list string) (l : list (list string * V)) v :
  (k, v) ∈ l → is_Some (assoc k l).
Proof.
  induction l as [|[k0 v0] l IH]; [by intros ?%elem_of_nil|].
  intros [[= <- <-]|H]%elem_of_cons; simpl.
  - rewrite decide_True by done. by eexists.
  - destruct (decide (k0 = k)); [by eexists|by apply IH].
Qed.

(** Entries that are added leave what was there as it was. *)
Lemma lstat_extend fs fs' added k nd :
  entries fs' = entries fs ++ added →
  lstat fs k = Some nd → lstat fs' k = Some nd.
Proof.
  unfold lstat. intros ->. destruct (decide (k = [])); [done|].
  apply assoc_app_Some.
Qed.

Lemma os_mkdir_ok fs k fs' :
  os_mkdir fs k = Success fs' →
  cwd fs' = cwd fs ∧ unlink_errors fs' = unlink_errors fs ∧
  entries fs' = entries fs ++ [(k, Plain Directory)] ∧
  lstat fs' k = Some (Plain Directory).
Proof.
  unfold os_mkdir. destruct (walk fs [] k); [done|].
  destruct (lstat fs k) eqn:Hl; [done|]. intros [= <-]. simpl.
  repeat split. unfold lstat in *. simpl.
  destruct (decide (k = [])); [done|].
  rewrite assoc_app_None by done. simpl. by rewrite decide_True.
Qed.

Lemma is_dir_lstat fs p :
  lstat fs (resolve fs p) = Some (Plain Directory) → is_dir fs p = true.
Proof. intros H. unfold is_dir, stat. by rewrite H. Qed.

Lemma resolve_cwd fs fs' p : cwd fs' = cwd fs → resolve fs' p = resolve fs p.
Proof. intros H. unfold resolve. by rewrite H. Qed.

Lemma mkdir_exist_ok_ok fs p fs' :
  mkdir_exist_ok fs p = Success fs' →
  is_dir fs' p = true ∧ cwd fs' = cwd fs ∧
  unlink_errors fs' = unlink_errors fs ∧
  ∃ added, entries fs' = entries fs ++ added ∧
           Forall (λ e, e.2 = Plain Directory) added.
Proof.
  unfold mkdir_exist_ok.
  destruct (os_mkdir fs (resolve fs p)) as [fs1|e] eqn:Hm.
  - intros [= <-]. apply os_mkdir_ok in Hm as (Hc & Hu & He & Hl).
    split; [apply is_dir_lstat; by rewrite (resolve_cwd _ _ _ Hc)|].
    split; [done|]. split; [done|].
    eexists. split; [done|]. by repeat constructor.
  - assert (is_dir fs p = true → Success fs = Success fs' →
            is_dir fs' p = true ∧ cwd fs' = cwd fs ∧
            unlink_errors fs' = unlink_errors fs ∧
            ∃ added, entries fs' = entries fs ++ added ∧
                     Forall (λ e, e.2 = Plain Directory) added) as Hsame.
    { intros Hd [= <-]. repeat split; [done|]. exists [].
      by rewrite (right_id_L [] (++)). }
    destruct e; try done; destruct (is_dir fs p) eqn:Hd; try done;
      by apply Hsame.
Qed.

(** What [mkdir] leaves when it succeeds: the path is a directory, and the
    entries that were there are followed by the directories it made. *)
Lemma mkdir_parents_ok fs r rev_tail fs' :
  mkdir_parents fs r rev_tail = Success fs' →
  is_dir fs' (mkPath r (reverse rev_tail)) = true ∧ cwd fs' = cwd fs ∧
  unlink_errors fs' = unlink_errors fs ∧
  ∃ added, entries fs' = entries fs ++ added ∧
           Forall (λ e, e.2 = Plain Directory) added.
Proof.
  revert fs'. induction rev_tail as [|n rev_parent IH]; intros fs' H.
  - simpl in H. by apply mkdir_exist_ok_ok.
  - cbn [mkdir_parents] in H.
    destruct (os_mkdir fs _) as [fs1|e] eqn:Hm.
    + injection H as <-. apply os_mkdir_ok in Hm as (Hc & Hu & He & Hl).
      split; [apply is_dir_lstat; by rewrite (resolve_cwd _ _ _ Hc)|].
      split; [done|]. split; [done|].
      eexists. split; [done|]. by repeat constructor.
    + assert (is_dir fs (mkPath r (reverse (n :: rev_parent))) = true →
              Success fs = Success fs' →
              is_dir fs' (mkPath r (reverse (n :: rev_parent))) = true ∧
              cwd fs' = cwd fs ∧ unlink_errors fs' = unlink_errors fs ∧
              ∃ added, entries fs' = entries fs ++ added ∧
                       Forall (λ e, e.2 = Plain Directory) added) as Hsame.
      { intros Hd [= <-]. repeat split; [done|]. exists [].
        by rewrite (right_id_L [] (++)). }
      destruct e;
        try (destruct (is_dir fs _) eqn:Hd; [by apply Hsame|done]).
      destruct (mkdir_parents fs r rev_parent) as [fs1|] eqn:Hp; [|done].
      destruct (IH _ eq_refl) as (_ & Hc1 & Hu1 & added1 & He1 & Ha1).
      apply mkdir_exist_ok_ok in H as (Hd & Hc & Hu & added & He & Ha).
      split; [done|]. split; [congruence|]. split; [congruence|].
      exists (added1 ++ added). split.
      * by rewrite He, He1, (assoc_L (++)).
      * by apply Forall_app.
Qed.

Lemma mkdir_ok fs p fs' :
  mkdir fs p = Success fs' →
  is_dir fs' p = true ∧ cwd fs' = cwd fs ∧
  unlink_errors fs' = unlink_errors fs ∧
  ∃ added, entries fs' = entries fs ++ added ∧
           Forall (λ e, e.2 = Plain Directory) added.
Proof.
  unfold mkdir. intros H%mkdir_parents_ok.
  rewrite reverse_involutive in H. by destruct p.
Qed.

Lemma lstat_remove_entry_other fs k k' :
  k ≠ k' → lstat (remove_entry k' fs) k = lstat fs k.
Proof.
  intros Hk. unfold lstat. simpl. destruct (decide (k = [])); [done|].
  by apply assoc_filter_other.
Qed.

(** An entry of the purge loop: it is unlinked, or the loop ends in the
    state it had reached. *)
Lemma purge_entry_cases file_path st :
  purge_entry file_path st =
    Ok () (mkState (env st)
                   (remove_entry (resolve (fs st) file_path) (fs st))
                   (trace st)) ∨
  ∃ e, purge_entry file_path st = Raise e st.
Proof.
  unfold purge_entry, except_OSError, bind, get_fs, syscall, unlink, raise.
  repeat (case_match; simplify_eq/=; eauto).
Qed.

(** The purge loop touches nothing but the entries it was given. *)
Lemma purge_loop_frame d ns st :
  let r := for_each (child d <$> ns) purge_entry st in
  cwd (fs (final_state r)) = cwd (fs st) ∧
  unlink_errors (fs (final_state r)) = unlink_errors (fs st) ∧
  ∀ k, (∀ n, n ∈ ns → k ≠ resolve (fs st) d ++ [n]) →
       lstat (fs (final_state r)) k = lstat (fs st) k.
Proof.
  revert st. induction ns as [|n ns IH]; intros st; simpl; [done|].
  unfold bind.
  destruct (purge_entry_cases (child d n) st) as [->|[e ->]]; [|done].
  match goal with |- context [for_each _ _ ?st1] =>
    destruct (IH st1) as (Hc & Hu & Hk) end.
  simpl in *. split; [done|]. split; [done|].
  intros k Hne. rewrite Hk.
  - apply lstat_remove_entry_other. rewrite resolve_child.
    apply Hne. left.
  - intros n' Hn'. apply Hne. by right.
Qed.

End Destination.

Section Preparation.

Lemma syscall_ok f st st' :
  syscall f st = Ok () st' →
  ∃ fs', f (fs st) = Success fs' ∧ st' = mkState (env st) fs' (trace st).
Proof.
  unfold syscall. destruct (f (fs st)) as [fs'|]; [|done].
  intros [= <-]. by exists fs'.
Qed.

Lemma resolve_inputs_ok st p d st' :
  resolve_inputs st = Ok (p, d) st' → st' = st.
Proof.
  intros H. by apply (inv_ok _ _ _ _ (resolve_inputs_inv st) eq_refl H).
Qed.

(** The purge leaves every path alone that is not directly inside the
    destination, whether it runs to its end or not. *)
Lemma purge_destination_frame d st :
  let r := purge_destination d st in
  cwd (fs (final_state r)) = cwd (fs st) ∧
  unlink_errors (fs (final_state r)) = unlink_errors (fs st) ∧
  ∀ k, (∀ n, k ≠ resolve (fs st) d ++ [n]) →
       lstat (fs (final_state r)) k = lstat (fs st) k.
Proof.
  unfold purge_destination, bind, get_env, get_fs.
  destruct (truthy _); [|done].
  unfold glob. destruct (is_dir (fs st) d); [|done].
  destruct (purge_loop_frame d
              (filter (λ n, fnmatch "*" n) (listdir (fs st) (resolve (fs st) d)))
              st) as (Hc & Hu & Hk).
  split; [done|]. split; [done|]. intros k Hne. apply Hk. auto.
Qed.

(** The steps of a preparation that succeeds. *)
Lemma prepare_ok st p d st1 :
  prepare st = Ok (p, d) st1 →
  resolve_inputs st = Ok (p, d) st ∧
  ∃ fs', mkdir (fs st) d = Success fs' ∧
         purge_destination d (mkState (env st) fs' (trace st)) = Ok () st1.
Proof.
  intros H. unfold prepare in H.
  apply bind_ok in H as ([p0 d0] & st0 & H0 & H).
  pose proof (resolve_inputs_ok _ _ _ _ H0) as ->.
  apply bind_ok in H as ([] & stm & Hm & H).
  apply syscall_ok in Hm as (fs' & Hm & ->).
  apply bind_ok in H as ([] & stp & Hp & H).
  injection H as <- <- <-. split; [done|]. by exists fs'.
Qed.

(** After a preparation that succeeds the destination is a directory,
    whether it was there before or not, purged or not. *)
Theorem destination_is_a_directory st p d st1 :
  prepare st = Ok (p, d) st1 → is_dir (fs st1) d = true.
Proof.
  intros (_ & fs' & Hm & Hp)%prepare_ok.
  apply mkdir_ok in Hm as (Hd & _).
  destruct (purge_destination_frame d (mkState (env st) fs' (trace st)))
    as (Hc & _ & Hk).
  rewrite Hp in Hc, Hk. simpl in Hc, Hk.
  unfold is_dir, stat in *. rewrite (resolve_cwd _ _ _ Hc), Hk; [done|].
  intros n Heq. apply (f_equal length) in Heq.
  rewrite length_app in Heq. simpl in Heq. lia.
Qed.

(** The purge deletes nothing but what lies directly inside the
    destination: whether it runs to its end or stops at an entry, every
    other path (the destination itself, what lies deeper, what lies
    elsewhere) keeps its entry, and environment and trace are untouched. *)
Theorem purge_touches_only_children d st k :
  (∀ n, k ≠ resolve (fs st) d ++ [n]) →
  let st' := final_state (purge_destination d st) in
  lstat (fs st') k = lstat (fs st) k ∧ env st' = env st ∧ trace st' = trace st.
Proof.
  intros Hk st'. split.
  - by apply purge_destination_frame.
  - assert (inv (same_env_trace st) (λ _, True) (purge_destination d)) as Hinv.
    { unfold purge_destination, purge_entry. inv_auto. }
    specialize (Hinv st (conj eq_refl eq_refl)). subst st'.
    destruct (purge_destination d st); [done|by destruct Hinv].
Qed.

(** Without the purge option the preparation deletes nothing: whatever its
    outcome, the entries of the file system are those it found, followed by
    the directories that [mkdir] made. *)
Theorem preparation_without_purge_only_adds st :
  truthy (env_get (env st) "purge_destination" VNone) = false →
  ∃ added,
    entries (fs (final_state (prepare st))) = entries (fs st) ++ added ∧
    Forall (λ e, e.2 = Plain Directory) added.
Proof.
  intros Hp.
  assert (∃ added, entries (fs st) = entries (fs st) ++ added ∧
                   Forall (λ e : list string * node, e.2 = Plain Directory) added)
    as Hsame by (exists []; by rewrite (right_id_L [] (++))).
  unfold prepare, bind at 1.
  destruct (resolve_inputs st) as [[p d] st0|e st0] eqn:H0.
  - pose proof (resolve_inputs_ok _ _ _ _ H0) as ->.
    unfold bind at 1, syscall.
    destruct (mkdir (fs st) d) as [fs'|] eqn:Hm; [|done].
    apply mkdir_ok in Hm as (_ & _ & _ & Hadd).
    unfold bind, purge_destination, bind, get_env. simpl. by rewrite Hp.
  - pose proof (inv_raised _ _ _ _ (resolve_inputs_inv st) eq_refl H0) as [-> _].
    done.
Qed.

Lemma child_name_Some k k' n : child_name k k' = Some n → k' = k ++ [n].
Proof.
  unfold child_name. destruct (last k') as [n'|]; [|done].
  destruct (decide _); [|done]. by intros [= <-].
Qed.

Lemma listdir_elem fs k n :
  n ∈ listdir fs k → ∃ nd, (k ++ [n], nd) ∈ entries fs.
Proof.
  unfold listdir. intros ([k' nd] & He & Hc)%list_elem_of_omap.
  simpl in Hc. apply child_name_Some in Hc as ->. by exists nd.
Qed.

Lemma elem_listdir fs k n nd :
  (k ++ [n], nd) ∈ entries fs → n ∈ listdir fs k.
Proof.
  intros He. apply list_elem_of_omap. exists (k ++ [n], nd). split; [done|].
  unfold child_name. simpl. rewrite last_snoc. by rewrite decide_True.
Qed.

(** Once every listed child is filtered out, the listing is empty. *)
Lemma listdir_purged fs fs' k :
  entries fs' =
    filter (λ e, e.1 ∉ (λ n, k ++ [n]) <$> listdir fs k) (entries fs) →
  listdir fs' k = [].
Proof.
  intros He. destruct (listdir fs' k) as [|n ns] eqn:Hl; [done|exfalso].
  assert (n ∈ listdir fs' k) as Hn by (rewrite Hl; left).
  apply listdir_elem in Hn as [nd Hn]. rewrite He in Hn.
  apply list_elem_of_filter in Hn as [Hout Hin]. apply Hout. simpl.
  apply list_elem_of_fmap. exists n. split; [done|]. by eapply elem_listdir.
Qed.

(** A purge that has run to its end has emptied the destination, so that
    purging once more changes nothing and succeeds. *)
Theorem purge_twice_is_purge_once d st st' :
  purge_destination d st = Ok () st' →
  purge_destination d st' = Ok () st'.
Proof.
  intros H.
  assert (env st' = env st) as He.
  { assert (inv (same_env_trace st) (λ _, True) (purge_destination d)) as Hinv
      by (unfold purge_destination, purge_entry; inv_auto).
    by destruct (inv_ok _ _ _ _ Hinv (conj eq_refl eq_refl) H). }
  unfold purge_destination, bind, get_env, get_fs in *. rewrite He.
  destruct (truthy _); [|by injection H as <-].
  destruct (is_dir (fs st') d) eqn:Hd'; [|unfold glob; by rewrite Hd'].
  destruct (is_dir (fs st) d) eqn:Hd.
  - rewrite glob_star in H by done. rewrite glob_star by done.
    apply purge_loop_ok in H as [Hc Hent].
    rewrite (resolve_cwd _ _ _ Hc).
    by rewrite (listdir_purged (fs st) (fs st') _ Hent).
  - unfold glob in H. rewrite Hd in H. injection H as <-. congruence.
Qed.

End Preparation.

Section PurgeSucceeds.

(** An entry that is there, is no real directory and is not refused by the
    system is unlinked. *)
Lemma purge_entry_unlinks file_path st nd :
  lstat (fs st) (resolve (fs st) file_path) = Some nd →
  nd ≠ Plain Directory →
  assoc (resolve (fs st) file_path) (unlink_errors (fs st)) = None →
  purge_entry file_path st =
    Ok () (mkState (env st)
                   (remove_entry (resolve (fs st) file_path) (fs st))
                   (trace st)).
Proof.
  intros Hl Hnd Hu.
  unfold purge_entry, except_OSError, bind, get_fs, is_dir, is_symlink, stat,
    syscall, unlink.
  rewrite Hl. destruct nd as [[]|t]; [|done|]; simpl.
  - by rewrite Hl, Hu.
  - rewrite andb_false_r. simpl. by rewrite Hl, Hu.
Qed.

Lemma purge_loop_succeeds d ns st :
  NoDup ns →
  (∀ n, n ∈ ns →
        ∃ nd, lstat (fs st) (resolve (fs st) d ++ [n]) = Some nd ∧
              nd ≠ Plain Directory ∧
              assoc (resolve (fs st) d ++ [n]) (unlink_errors (fs st)) = None) →
  ∃ st', for_each (child d <$> ns) purge_entry st = Ok () st'.
Proof.
  revert st. induction ns as [|n ns IH]; intros st Hnd Hall; [by eexists|].
  apply NoDup_cons in Hnd as [Hn Hnd]. simpl. unfold bind.
  destruct (Hall n) as (nd & Hl & Hne & Hu); [left|].
  rewrite <- resolve_child in Hl, Hu.
  rewrite (purge_entry_unlinks _ _ _ Hl Hne Hu).
  apply IH; [done|]. intros n' Hn'. simpl.
  destruct (Hall n') as (nd' & Hl' & Hne' & Hu'); [by right|].
  exists nd'. split; [|done].
  assert (resolve (remove_entry (resolve (fs st) (child d n)) (fs st)) d
          = resolve (fs st) d) as -> by done.
  rewrite lstat_remove_entry_other; [done|].
  rewrite resolve_child. intros [_ ->]%app_inj_tail. done.
Qed.

(** On a destination that holds only files and symbolic links, none of
    which the system refuses to delete, the purge runs to its end and leaves
    the destination empty; a link to a directory is unlinked like a file. *)
Theorem purge_of_files_and_links_succeeds d st :
  truthy (env_get (env st) "purge_destination" VNone) = true →
  is_dir (fs st) d = true →
  NoDup (listdir (fs st) (resolve (fs st) d)) →
  (∀ n, n ∈ listdir (fs st) (resolve (fs st) d) →
        lstat (fs st) (resolve (fs st) d ++ [n]) ≠ Some (Plain Directory) ∧
        assoc (resolve (fs st) d ++ [n]) (unlink_errors (fs st)) = None) →
  ∃ st', purge_destination d st = Ok () st' ∧
         listdir (fs st') (resolve (fs st') d) = [].
Proof.
  intros Hp Hd Hnd Hall.
  unfold purge_destination, bind, get_env, get_fs. rewrite Hp, glob_star by done.
  destruct (purge_loop_succeeds d (listdir (fs st) (resolve (fs st) d)) st)
    as [st' H]; [done| |].
  - intros n Hn. destruct (Hall n Hn) as [Hne Hu].
    destruct (listdir_elem _ _ _ Hn) as [nd0 He].
    apply assoc_elem_of in He as [nd He].
    exists nd. unfold lstat in *.
    rewrite decide_False in * by (by destruct (resolve _ _)).
    split; [done|]. split; [congruence|done].
  - exists st'. split; [done|].
    apply purge_loop_ok in H as [Hc He].
    rewrite (resolve_cwd _ _ _ Hc). by eapply listdir_purged.
Qed.

End PurgeSucceeds.

Lemma destination_is_a_directory_witness :
  let st := Scenario.zip_download in
  let p := parse "/dl/bundle.zip" in
  let d := parse "/cache/App" in
  let st1 := final_state (prepare st) in
  (is_dir (fs st) d = false ∧ prepare st = Ok (p, d) st1) ∧
  is_dir (fs st1) d = true.
Proof.
  intros st p d st1.
  assert (prepare st = Ok (p, d) st1) as H by (vm_compute; reflexivity).
  split; [by split|].
  exact (destination_is_a_directory st p d st1 H).
Defined.

Lemma purge_touches_only_children_witness :
  let st := Scenario.file_and_subdirectory in
  let d := parse "/cache/App" in
  let k := ["cache"; "App"; "sub"; "inner.txt"] in
  let st' := final_state (purge_destination d st) in
  (∀ n, k ≠ resolve (fs st) d ++ [n]) ∧
  lstat (fs st') k = Some (Plain Regular) ∧
  env st' = env st ∧ trace st' = trace st.
Proof.
  intros st d k st'.
  assert (∀ n, k ≠ resolve (fs st) d ++ [n]) as Hk by (intros n; discriminate).
  split; [exact Hk|].
  exact (purge_touches_only_children d st k Hk).
Defined.

Lemma preparation_without_purge_only_adds_witness :
  let st := Scenario.zip_download in
  truthy (env_get (env st) "purge_destination" VNone) = false ∧
  ∃ added,
    entries (fs (final_state (prepare st))) = entries (fs st) ++ added ∧
    Forall (λ e, e.2 = Plain Directory) added.
Proof.
  intros st. split; [reflexivity|].
  exact (preparation_without_purge_only_adds st eq_refl).
Defined.

Lemma purge_twice_is_purge_once_witness :
  let st := Scenario.hidden_in_destination in
  let d := parse "/cache/App" in
  let st' := final_state (purge_destination d st) in
  purge_destination d st = Ok () st' ∧ purge_destination d st' = Ok () st'.
Proof.
  intros st d st'.
  assert (purge_destination d st = Ok () st') as H by (vm_compute; reflexivity).
  split; [exact H|].
  exact (purge_twice_is_purge_once d st st' H).
Defined.

Lemma purge_of_files_and_links_succeeds_witness :
  let st := Cases.links_in_destination in
  let d := parse "/cache/App" in
  (listdir (fs st) (resolve (fs st) d) = ["old.txt"; "gone"; "latest"] ∧
   lstat (fs st) ["cache"; "App"; "latest"] = Some (Symlink (Some Directory))) ∧
  ∃ st', purge_destination d st = Ok () st' ∧
         listdir (fs st') (resolve (fs st') d) = [].
Proof.
  intros st d. split; [by split|].
  apply (purge_of_files_and_links_succeeds d st); try reflexivity.
  - apply (bool_decide_unpack _). by vm_compute.
  - intros n Hn. vm_compute in Hn.
    apply elem_of_cons in Hn as [->|Hn]; [by split|].
    apply elem_of_cons in Hn as [->|Hn]; [by split|].
    apply elem_of_cons in Hn as [->|Hn]; [by split|].
    by apply elem_of_nil in Hn.
Defined.

(** ** The new name *)

Section NewName.

Lemma rfind_none c s : Str.contains c s = false → Str.rfind c s = None.
Proof.
  induction s as [|a s IH]; [done|]. simpl.
  intros [Ha Hs]%orb_false_iff. apply bool_decide_eq_false in Ha.
  rewrite IH by done. by rewrite decide_False.
Qed.

(** The last occurrence of a character. *)
Lemma rfind_app c u t :
  Str.contains c t = false →
  Str.rfind c (u +:+ String c t) = Some (String.length u).
Proof.
  intros Ht. induction u as [|a u IH].
  - simpl. rewrite rfind_none by done. by rewrite decide_True.
  - rewrite app_cons. simpl. by rewrite IH.
Qed.

Lemma drop_app u t : Str.drop (String.length u) (u +:+ t) = t.
Proof. induction u as [|a u IH]; [by destruct t|]. by rewrite app_cons. Qed.

Lemma drop_split i s :
  i ≤ String.length s → ∃ u, s = u +:+ Str.drop i s ∧ String.length u = i.
Proof.
  revert s. induction i as [|i IH]; intros s Hi.
  - exists "". by destruct s.
  - destruct s as [|a s]; [simpl in Hi; lia|]. simpl in Hi.
    destruct (IH s) as (u & Hu & Hl); [lia|].
    exists (String a u). simpl. rewrite app_cons. split; [by f_equal|by f_equal].
Qed.

(** The test of line 132: a path has the suffix [.dmg] exactly when its
    name is a non-empty stem followed by [.dmg]. *)
Theorem dmg_suffix_iff p :
  suffix p = ".dmg" ↔ ∃ stem, stem ≠ "" ∧ name p = stem +:+ ".dmg".
Proof.
  unfold suffix. split.
  - destruct (Str.rfind "." (name p)) as [i|]; [|done].
    destruct (bool_decide (0 < i)) eqn:H0; [|done].
    destruct (bool_decide (i < _)) eqn:H1; [|done]. simpl.
    apply bool_decide_eq_true in H0, H1. intros Hd.
    destruct (drop_split i (name p)) as (u & Hu & Hl); [lia|].
    exists u. split; [intros ->; simpl in Hl; lia|]. by rewrite <- Hd.
  - intros (stem & Hne & ->).
    rewrite (rfind_app "." stem "dmg") by done.
    rewrite app_length. simpl String.length.
    rewrite !bool_decide_eq_true_2 by (destruct stem; [done|simpl; lia]).
    simpl. apply drop_app.
Qed.

(** Lines 126-128 on an absolute source path, when the text of its name
    before the first [?] can be a path component: the new path lies in the
    directory of the source, its name is that text, the name holds no [?],
    and the name of the source is that text alone or that text, a [?] and
    more. *)
Theorem new_name_of_absolute_source p stem :
  is_absolute p = true →
  head (Str.split "?" (name p)) = Some stem →
  Str.contains "/" stem = false → stem ≠ "" → stem ≠ "." →
  parent (new_pathname_of p) = parent p ∧
  name (new_pathname_of p) = stem ∧
  Str.contains "?" stem = false ∧
  (name p = stem ∨ ∃ rest, name p = stem +:+ String "?" rest).
Proof.
  intros Ha Hh H1 H2 H3.
  rewrite (new_pathname_of_absolute p stem) by done.
  split; [|split].
  - unfold parent, child. simpl. by rewrite removelast_last.
  - unfold child, parent. apply name_snoc.
  - destruct (split_head "?" (name p)) as (stem' & Hh' & Hc & Hs).
    rewrite Hh in Hh'. by injection Hh' as <-.
Qed.

(** On an absolute source path the new path is a fixed point: computing
    the new name of the renamed file gives the renamed file. *)
Theorem new_name_is_stable p stem :
  is_absolute p = true →
  head (Str.split "?" (name p)) = Some stem →
  Str.contains "/" stem = false → stem ≠ "" → stem ≠ "." →
  new_pathname_of (new_pathname_of p) = new_pathname_of p.
Proof.
  intros Ha Hh H1 H2 H3.
  rewrite (new_pathname_of_absolute p stem) by done.
  assert (name (child (parent p) stem) = stem) as Hn by apply name_snoc.
  apply new_pathname_of_plain; rewrite ?Hn; try done.
  destruct (split_head "?" (name p)) as (stem' & Hh' & Hc & _).
  rewrite Hh in Hh'. by injection Hh' as <-.
Qed.


End NewName.

Lemma dmg_suffix_iff_witness :
  (∃ stem, stem ≠ "" ∧ name (parse "/dl/My App.dmg") = stem +:+ ".dmg") ∧
  suffix (parse "/dl/My App.dmg") = ".dmg" ∧
  ¬ (∃ stem, stem ≠ "" ∧ name (parse "/dl/.dmg") = stem +:+ ".dmg").
Proof.
  assert (∃ stem, stem ≠ "" ∧ name (parse "/dl/My App.dmg") = stem +:+ ".dmg")
    as H by (by exists "My App").
  split; [exact H|]. split.
  - exact (proj2 (dmg_suffix_iff (parse "/dl/My App.dmg")) H).
  - intros H'. by apply (proj2 (dmg_suffix_iff (parse "/dl/.dmg"))) in H'.
Defined.

Lemma new_name_of_absolute_source_witness :
  let p := parse "/dl/bundle.tar.gz?token=xyz" in
  (is_absolute p = true ∧
   head (Str.split "?" (name p)) = Some "bundle.tar.gz") ∧
  parent (new_pathname_of p) = parent p ∧
  name (new_pathname_of p) = "bundle.tar.gz" ∧
  Str.contains "?" "bundle.tar.gz" = false ∧
  (name p = "bundle.tar.gz" ∨
   ∃ rest, name p = "bundle.tar.gz" +:+ String "?" rest).
Proof.
  intros p. split; [by split|].
  apply (new_name_of_absolute_source p "bundle.tar.gz");
    (reflexivity || discriminate).
Defined.

Lemma new_name_is_stable_witness :
  let p := parse "/dl/bundle.tar.gz?token=xyz" in
  (is_absolute p = true ∧
   head (Str.split "?" (name p)) = Some "bundle.tar.gz") ∧
  new_pathname_of (new_pathname_of p) = new_pathname_of p.
Proof.
  intros p. split; [by split|].
  apply (new_name_is_stable p "bundle.tar.gz"); (reflexivity || discriminate).
Defined.


(** ** The renaming of an absolute source *)

Section Renaming.

(** The walk to a path depends on its directory only. *)
Lemma walk_last fs pre t n n' :
  walk fs pre (t ++ [n]) = walk fs pre (t ++ [n']).
Proof.
  revert pre. induction t as [|a t IH]; intros pre; [done|].
  simpl. destruct t as [|b t]; simpl; [done|].
  destruct (stat fs (pre ++ [a])) as [[]|]; [done| |done].
  apply (IH (pre ++ [a])).
Qed.

Lemma rekey_source ks kd : rekey ks kd ks = kd.
Proof.
  unfold rekey. rewrite decide_True by done.
  by rewrite drop_all, (right_id_L [] (++)).
Qed.

(** Only the source is moved onto a target of the same depth, and nothing
    is moved onto the source. *)
Lemma rekey_other ks kd k :
  length ks = length kd → ks ≠ kd → k ≠ ks → k ≠ kd →
  rekey ks kd k ≠ kd ∧ rekey ks kd k ≠ ks.
Proof.
  intros Hlen Hne Hks Hkd. unfold rekey.
  destruct (decide (ks `prefix_of` k)) as [[r ->]|Hp]; [|done].
  rewrite drop_app_length.
  split; intros Heq; apply (f_equal length) in Heq;
    rewrite length_app in Heq; destruct r; simpl in Heq;
    try lia; by rewrite (right_id_L [] (++)) in Hks.
Qed.

Lemma rekey_not_source ks kd k :
  length ks = length kd → ks ≠ kd → rekey ks kd k ≠ ks.
Proof.
  intros Hlen Hne. unfold rekey.
  destruct (decide (ks `prefix_of` k)) as [[r ->]|Hp].
  - rewrite drop_app_length. intros Heq.
    assert (r = []) as ->.
    { apply (f_equal length) in Heq. rewrite length_app in Heq.
      destruct r; [done|simpl in Heq; lia]. }
    by rewrite (right_id_L [] (++)) in Heq.
  - by intros ->.
Qed.

Lemma assoc_move_target {V} ks kd (l : list (list string * V)) v :
  length ks = length kd → ks ≠ kd →
  assoc ks l = Some v →
  assoc kd (prod_map (rekey ks kd) id <$> filter (λ e, e.1 ≠ kd) l) = Some v.
Proof.
  intros Hlen Hne. induction l as [|[k0 v0] l IH]; [done|]. simpl.
  destruct (decide (k0 = ks)) as [->|Hks].
  - intros [= ->]. rewrite filter_cons_True by done. simpl.
    by rewrite rekey_source, decide_True.
  - intros H. destruct (decide (k0 = kd)) as [->|Hkd].
    + rewrite filter_cons_False by (simpl; by intros ?). by apply IH.
    + rewrite filter_cons_True by done. simpl.
      destruct (rekey_other ks kd k0) as [Hr _]; [done..|].
      rewrite decide_False by done. by apply IH.
Qed.

Lemma assoc_move_source {V} ks kd (l : list (list string * V)) :
  length ks = length kd → ks ≠ kd →
  assoc ks (prod_map (rekey ks kd) id <$> filter (λ e, e.1 ≠ kd) l) = None.
Proof.
  intros Hlen Hne. induction l as [|[k0 v0] l IH]; [done|].
  destruct (decide (k0 = kd)) as [->|Hkd].
  - by rewrite filter_cons_False by (simpl; by intros ?).
  - rewrite filter_cons_True by done. simpl.
    rewrite decide_False by (by apply rekey_not_source). apply IH.
Qed.

(** For an absolute source path whose name holds a [?], when the source is
    there and nothing is yet under the new name, the renaming succeeds:
    what was under the old name is under the new one, nothing is left under
    the old one, and environment and trace are untouched. *)
Theorem signed_absolute_source_is_renamed p stem st nd :
  is_absolute p = true →
  head (Str.split "?" (name p)) = Some stem →
  Str.contains "/" stem = false → stem ≠ "" → stem ≠ "." →
  name p ≠ stem →
  reachable (fs st) p →
  lstat (fs st) (resolve (fs st) p) = Some nd →
  lstat (fs st) (resolve (fs st) (child (parent p) stem)) = None →
  ∃ st',
    canonicalize p st = Ok (child (parent p) stem) st' ∧
    lstat (fs st') (resolve (fs st') (child (parent p) stem)) = Some nd ∧
    lstat (fs st') (resolve (fs st') p) = None ∧
    env st' = env st ∧ trace st' = trace st.
Proof.
  intros Ha Hh H1 H2 H3 Hname [Hw _] Hl Hfree.
  unfold canonicalize. rewrite (new_pathname_of_absolute p stem) by done.
  destruct p as [r t]. unfold is_absolute in Ha. simpl in Ha.
  apply bool_decide_eq_true in Ha.
  destruct t as [|n t _] using rev_ind.
  { exfalso. unfold name in Hh. simpl in Hh. by simplify_eq. }
  rewrite name_snoc in Hname.
  assert (∀ fs0 q, resolve fs0 (mkPath r q) = q) as Hres
    by (intros ??; unfold resolve; simpl; by destruct r).
  unfold child, parent in *. simpl in *. rewrite removelast_last in *.
  rewrite !Hres in *.
  assert (t ++ [n] ≠ t ++ [stem]) as Hne
    by (intros [_ ?]%app_inj_tail; done).
  assert (length (t ++ [n]) = length (t ++ [stem])) as Hlen
    by (by rewrite !length_app).
  unfold bind, syscall, rename. rewrite !Hres, Hw, Hl.
  rewrite (walk_last _ _ _ stem n), Hw.
  rewrite decide_False by done.
  rewrite decide_False by (by destruct t).
  rewrite decide_False.
  2:{ intros Hp. apply Hne. apply prefix_length_eq; [done|lia]. }
  rewrite Hfree. eexists. split; [done|]. simpl.
  rewrite !Hres. unfold lstat in *. simpl.
  rewrite !decide_False in * by (by destruct t).
  split; [by apply assoc_move_target|].
  split; [by apply assoc_move_source|done].
Qed.

End Renaming.

Lemma signed_absolute_source_is_renamed_witness :
  let st := Scenario.tgz_download in
  let p := parse "/dl/bundle.tar.gz?token=xyz" in
  let np := parse "/dl/bundle.tar.gz" in
  (reachable (fs st) p ∧
   lstat (fs st) (resolve (fs st) p) = Some (Plain Regular) ∧
   lstat (fs st) (resolve (fs st) np) = None) ∧
  ∃ st',
    canonicalize p st = Ok np st' ∧
    lstat (fs st') (resolve (fs st') np) = Some (Plain Regular) ∧
    lstat (fs st') (resolve (fs st') p) = None ∧
    env st' = env st ∧ trace st' = trace st.
Proof.
  intros st p np.
  assert (reachable (fs st) p) as Hr by (split; [reflexivity|by eexists]).
  split; [by repeat split|].
  apply (signed_absolute_source_is_renamed p "bundle.tar.gz" st (Plain Regular));
    (reflexivity || discriminate || exact Hr).
Defined.

(** ** Runs that cannot succeed *)

Section NoSuccess.

Variable _extract :
  gmap string pyval → string → string → string → FS → FS * extract_outcome.
Variable re_match : string → string → option bool.

Lemma assoc_Some_elem {V} (k : list string) (l : list (list string * V)) v :
  assoc k l = Some v → (k, v) ∈ l.
Proof.
  induction l as [|[k0 v0] l IH]; [done|]. simpl.
  destruct (decide (k0 = k)) as [->|]; [intros [= ->]; left|].
  intros H. right. by apply IH.
Qed.

(** With the purge option set, a real subdirectory directly inside the
    destination makes every run fail: the purge cannot get past it. *)
Theorem subdirectory_in_destination_fails st p d n :
  truthy (env_get (env st) "purge_destination" VNone) = true →
  resolve_inputs st = Ok (p, d) st →
  lstat (fs st) (resolve (fs st) d ++ [n]) = Some (Plain Directory) →
  ∀ st', main _extract re_match st ≠ Ok () st'.
Proof.
  intros Hp Hr Hsub st' H.
  destruct (main_prepare_ok _ _ _ _ H) as (p' & d' & st1 & H1).
  apply prepare_ok in H1 as (Hr' & fs' & Hm & Hpurge).
  rewrite Hr in Hr'. injection Hr' as <- <-.
  apply mkdir_ok in Hm as (Hd & Hc & _ & added & He & _).
  assert (lstat fs' (resolve fs' d ++ [n]) = Some (Plain Directory)) as Hsub'.
  { rewrite (resolve_cwd _ _ _ Hc). by eapply lstat_extend. }
  unfold purge_destination, bind, get_env, get_fs in Hpurge. simpl in Hpurge.
  rewrite Hp, glob_star in Hpurge by done.
  apply (purge_loop_no_directory _ _ _ _ Hpurge n); [|done].
  unfold lstat in Hsub'.
  rewrite decide_False in Hsub' by (by destruct (resolve fs' d)).
  apply assoc_Some_elem in Hsub'. by eapply elem_listdir.
Qed.



(** When something that is no directory is in the place of the
    destination, [mkdir] fails and the run ends with its [OSError], which is
    no [ProcessorError]; nothing has been touched. *)
Theorem destination_in_use_fails st p d nd :
  resolve_inputs st = Ok (p, d) st →
  walk (fs st) [] (resolve (fs st) d) = None →
  lstat (fs st) (resolve (fs st) d) = Some nd →
  nd ≠ Plain Directory → nd ≠ Symlink (Some Directory) →
  main _extract re_match st = Raise (Other (OSError EEXIST)) st.
Proof.
  intros Hr Hw Hl Hn1 Hn2.
  assert (is_dir (fs st) d = false) as Hd.
  { unfold is_dir, stat. rewrite Hl. destruct nd as [[]|[[]|]]; done. }
  assert (mkdir (fs st) d = Failure EEXIST) as Hm.
  { unfold mkdir. destruct d as [r t]. simpl in *.
    destruct (reverse t) as [|n rt] eqn:Hrev;
      apply (f_equal reverse) in Hrev; rewrite reverse_involutive in Hrev;
      subst t; cbn [mkdir_parents]; unfold mkdir_exist_ok, os_mkdir;
      rewrite ?reverse_involutive; simpl; by rewrite Hw, Hl, ?Hd. }
  unfold main, prepare, bind at 1, bind at 1. rewrite Hr.
  unfold bind, syscall. by rewrite Hm.
Qed.

End NoSuccess.

Lemma subdirectory_in_destination_fails_witness :
  let st := Scenario.file_and_subdirectory in
  let p := parse "/dl/bundle.zip" in
  let d := parse "/cache/App" in
  (truthy (env_get (env st) "purge_destination" VNone) = true ∧
   resolve_inputs st = Ok (p, d) st ∧
   lstat (fs st) (resolve (fs st) d ++ ["sub"]) = Some (Plain Directory)) ∧
  ∀ st', main (Sample.unpack ["README"]) Sample.re_match st ≠ Ok () st'.
Proof.
  intros st p d.
  assert (resolve_inputs st = Ok (p, d) st) as Hr by (vm_compute; reflexivity).
  split; [by repeat split|].
  exact (subdirectory_in_destination_fails _ _ st p d "sub" eq_refl Hr eq_refl).
Defined.


Lemma destination_in_use_fails_witness :
  let st := Cases.destination_is_a_file in
  let p := parse "/dl/bundle.zip" in
  let d := parse "/cache/App" in
  (resolve_inputs st = Ok (p, d) st ∧
   lstat (fs st) (resolve (fs st) d) = Some (Plain Regular)) ∧
  main (Sample.unpack ["README"]) Sample.re_match st =
    Raise (Other (OSError EEXIST)) st.
Proof.
  intros st p d.
  assert (resolve_inputs st = Ok (p, d) st) as Hr by (vm_compute; reflexivity).
  split; [by split|].
  apply (destination_in_use_fails _ _ st p d (Plain Regular) Hr);
    (reflexivity || discriminate).
Defined.

(** ** A recipe name that is no regular expression *)

Section BadPattern.

Variable _extract :
  gmap string pyval → string → string → string → FS → FS * extract_outcome.
Variable re_match : string → string → option bool.

(** The recipe name goes into the pattern as it is.  When the pattern does
    not compile, the run fails with the wrapped [re.error] as soon as the
    destination lists one [.dmg] child; with no such child the pattern is
    never compiled, and the run ends like any run that found nothing. *)
Theorem invalid_pattern_is_met_at_the_first_image
    st p d st1 np st2 st3 recipe_name :
  prepare st = Ok (p, d) st1 →
  canonicalize p st1 = Ok np st2 →
  suffix np ≠ ".dmg" →
  unarchive _extract np d st2 = Ok () st3 →
  env st !! "NAME" = Some recipe_name →
  let file_regex := py_str recipe_name +:+ ".*\.dmg" in
  (∀ s, re_match file_regex s = None) →
  (glob (fs st3) d "*.dmg" ≠ [] →
   main _extract re_match st =
     Raise (Processor (FromException (ReError file_regex))) st3) ∧
  (glob (fs st3) d "*.dmg" = [] → ¬ dmg_path_set st →
   main _extract re_match st = Raise (Processor NoDmgLocated) st3).
Proof.
  intros H1 H2 Hs H3 Hn file_regex Hbad.
  destruct (main_after_unarchive _ re_match _ _ _ _ _ _ _ H1 H2 Hs H3)
    as [-> He].
  unfold except_wrap, bind.
  rewrite (locate_dmg_run re_match d st3 recipe_name) by (by rewrite He).
  fold file_regex. split.
  - destruct (glob (fs st3) d "*.dmg") as [|f files]; [done|]. intros _.
    simpl. by rewrite Hbad.
  - intros -> Hunset. simpl.
    by rewrite check_found_unset by (unfold dmg_path_set; by rewrite He).
Qed.

End BadPattern.

Lemma invalid_pattern_is_met_at_the_first_image_witness :
  let st := Scenario.start "/dl/bundle.zip" "App (beta" in
  let p := parse "/dl/bundle.zip" in
  let d := parse "/cache/App (beta" in
  let st1 := final_state (prepare st) in
  let st2 := final_state (canonicalize p st1) in
  let st3 := final_state (unarchive (Sample.unpack ["App (beta.dmg"]) p d st2) in
  ((∀ s, Sample.re_match "App (beta.*\.dmg" s = None) ∧
   glob (fs st3) d "*.dmg" ≠ []) ∧
  main (Sample.unpack ["App (beta.dmg"]) Sample.re_match st =
    Raise (Processor (FromException (ReError "App (beta.*\.dmg"))) st3.
Proof.
  intros st p d st1 st2 st3.
  assert (∀ s, Sample.re_match "App (beta.*\.dmg" s = None) as Hbad by done.
  assert (glob (fs st3) d "*.dmg" ≠ []) as Hg by (vm_compute; discriminate).
  split; [by split|].
  refine (proj1 (invalid_pattern_is_met_at_the_first_image
                   (Sample.unpack ["App (beta.dmg"]) Sample.re_match
                   st p d st1 p st2 st3 (VStr "App (beta")
                   _ _ _ _ _ Hbad) Hg);
    try (vm_compute; reflexivity).
  discriminate.
Defined.
